(** * Journey analytics of the rybbit server: a shallow embedding

    The three analytics endpoints
      - [getJourneys]                   (server/src/api/analytics/getJourneys.ts)
      - [getJourneyTransitionSessions]  (server/src/api/analytics/getJourneyTransitionSessions.ts)
      - [getJourneyStepEventDetails]    (server/src/api/analytics/getJourneyStepEventDetails.ts,
                                         in its revision that also lists the raw events)
    are TypeScript handlers that validate the query string, assemble a
    ClickHouse query and reshape its rows.  The embedding gives every SQL
    stage (sub-select, CTE, WHERE/HAVING, GROUP BY, ORDER BY, LIMIT) as a
    function on lists of rows, and every handler as a function from the
    request and the event table to a reply. *)

From Stdlib Require Import List String Ascii ZArith Bool Lia.
From Stdlib Require Import Sorted Permutation QArith.
From Stdlib Require DecimalString DecimalPos.
Import ListNotations.

Local Open Scope string_scope.
Local Open Scope Z_scope.

(* ================================================================== *)
(** ** JavaScript helpers used by the handlers *)
(* ================================================================== *)

Module Js.

(** Truthiness of a string: only the empty string is falsy. *)
Definition truthy (s : string) : bool :=
  match s with EmptyString => false | _ => true end.

(** An optional query-string parameter in a boolean position
    ([!source], [stepIndex ? ... : ...]): [undefined] is falsy. *)
Definition truthy_opt (o : option string) : bool :=
  match o with Some s => truthy s | None => false end.

(** [const { limit = "50" } = req.query]: the default replaces
    [undefined] only. *)
Definition with_default (d : string) (o : option string) : string :=
  match o with Some s => s | None => d end.

Definition is_space (c : ascii) : bool :=
  let n := nat_of_ascii c in
  (Nat.eqb n 32 || Nat.eqb n 9 || Nat.eqb n 10 || Nat.eqb n 11
   || Nat.eqb n 12 || Nat.eqb n 13)%bool.

Definition digit_of (c : ascii) : option Z :=
  let n := nat_of_ascii c in
  if (Nat.leb 48 n && Nat.leb n 57)%bool then Some (Z.of_nat (n - 48)) else None.

Fixpoint skip_spaces (s : string) : string :=
  match s with
  | String c rest => if is_space c then skip_spaces rest else s
  | EmptyString => s
  end.

(** Longest prefix of decimal digits, read most significant first;
    [seen] records whether any digit was consumed. *)
Fixpoint read_digits (s : string) (acc : Z) (seen : bool) : option Z :=
  match s with
  | String c rest =>
      match digit_of c with
      | Some d => read_digits rest (10 * acc + d) true
      | None => if seen then Some acc else None
      end
  | EmptyString => if seen then Some acc else None
  end.

(** [parseInt(s, 10)]: leading white space, an optional sign, then the
    longest run of decimal digits; [None] is [NaN].  (The ASCII white
    space characters are covered; values are exact integers.) *)
Definition parseInt (s : string) : option Z :=
  match skip_spaces s with
  | String "-" rest => option_map Z.opp (read_digits rest 0 false)
  | String "+" rest => read_digits rest 0 false
  | t => read_digits t 0 false
  end.

(** [isNaN(x) || x < lo || x > hi] on a parsed number. *)
Definition out_of_range (x : option Z) (lo hi : Z) : bool :=
  match x with
  | None => true
  | Some n => ((n <? lo) || (hi <? n))%bool
  end.

(** [Math.ceil(total / limit)] for a non-negative [total] and a
    positive [limit]. *)
Definition ceil_div (total limit : Z) : Z := (total + limit - 1) / limit.

End Js.

(* ================================================================== *)
(** ** ClickHouse functions and clauses used by the queries *)
(* ================================================================== *)

Module Sql.

(** [splitByChar(sep, s)]: the pieces of [s] between occurrences of
    [sep]; always at least one piece. *)
Fixpoint splitByChar (sep : ascii) (s : string) : list string :=
  match s with
  | EmptyString => [EmptyString]
  | String c rest =>
      if Ascii.eqb c sep then EmptyString :: splitByChar sep rest
      else match splitByChar sep rest with
           | w :: ws => String c w :: ws
           | [] => [String c EmptyString]
           end
  end.

(** [startsWith(s, p)]. *)
Definition startsWith (s p : string) : bool := String.prefix p s.

(** [arr[i]] / [arrayElement(arr, i)]: 1-based; a negative index counts
    from the end; an index outside the array gives the default value of
    the element type.  Index 0 is not a position and gives the default
    value too; callers that pass a constant index exclude it. *)
Definition arrayElement {A} (d : A) (arr : list A) (i : Z) : A :=
  if 0 <? i then nth (Z.to_nat (i - 1)) arr d
  else if i <? 0 then
    (if Z.of_nat (List.length arr) + i <? 0 then d
     else nth (Z.to_nat (Z.of_nat (List.length arr) + i)) arr d)
  else d.

(** [arrayIndexOf(arr, x)]: 1-based position of the first element equal
    to [x], 0 when there is none. *)
Fixpoint arrayIndexOf (arr : list string) (x : string) : Z :=
  match arr with
  | [] => 0
  | y :: rest =>
      if String.eqb y x then 1
      else let i := arrayIndexOf rest x in
           if i =? 0 then 0 else i + 1
  end.

(** [arrayCompact(arr)]: removes consecutive duplicate elements. *)
Fixpoint arrayCompact (arr : list string) : list string :=
  match arr with
  | [] => []
  | x :: rest =>
      match rest with
      | y :: _ => if String.eqb x y then arrayCompact rest
                  else x :: arrayCompact rest
      | [] => [x]
      end
  end.

(** [arraySlice(arr, 1, n)]. *)
Definition arraySlice1 {A} (arr : list A) (n : Z) : list A :=
  firstn (Z.to_nat n) arr.

(** [ORDER BY]: the rows in the order given by [leb]; rows that compare
    equal keep their relative order. *)
Fixpoint insert_by {A} (leb : A -> A -> bool) (x : A) (l : list A) : list A :=
  match l with
  | [] => [x]
  | y :: rest => if leb x y then x :: l else y :: insert_by leb x rest
  end.

Definition order_by {A} (leb : A -> A -> bool) (l : list A) : list A :=
  fold_right (insert_by leb) [] l.

(** [LIMIT n OFFSET o]. *)
Definition limit_offset {A} (n o : Z) (l : list A) : list A :=
  firstn (Z.to_nat n) (skipn (Z.to_nat o) l).

(** The distinct values of a column (the keys of a [GROUP BY]), in
    order of first appearance. *)
Fixpoint distinct {A} (eqb : A -> A -> bool) (l : list A) : list A :=
  match l with
  | [] => []
  | x :: rest => x :: filter (fun y => negb (eqb y x)) (distinct eqb rest)
  end.

(** [count(DISTINCT col)]. *)
Definition count_distinct (l : list string) : Z :=
  Z.of_nat (List.length (distinct String.eqb l)).

(** The value bound to a query parameter [{name:Int32}] from a
    JavaScript number: [None], and the query fails, for [NaN] and for a
    number outside -2^31 .. 2^31 - 1. *)
Definition Int32 (x : option Z) : option Z :=
  match x with
  | Some n =>
      if ((-2147483648 <=? n) && (n <=? 2147483647))%bool then Some n else None
  | None => None
  end.

End Sql.

(* ================================================================== *)
(** ** The event table and the collaborators of the handlers *)
(* ================================================================== *)

(** One row of the [events] table, with the columns the three queries
    read.  [event_name] is tested against NULL by the queries, hence the
    option.  [props] is the JSON property bag: [None] is NULL, and the
    bag is held as the (key, raw JSON text of the value) pairs that
    [JSONExtractKeysAndValuesRaw] reads off it, so the text [{}] is the
    empty list. *)
Record Event := mkEvent {
  site_id : Z;
  session_id : string;
  timestamp : Z;
  type : string;
  pathname : string;
  event_name : option string;
  props : option (list (string * string));
  user_id : string;
  identified_user_id : string
}.

(** What the handlers import from [./utils/utils.js] and
    [./utils/getFilterStatement.js], kept abstract: the SQL fragments
    [timeStatement] and [filterStatement] as the row predicates they
    denote, the wildcard matcher [match(label, patternToRegex(pattern))],
    and the trait store behind [enrichWithTraits]. *)
Record Env := mkEnv {
  timeStatement : Event -> bool;
  filterStatement : Event -> bool;
  pattern_match : string -> string -> bool;
  trait_store : string -> list (string * string)
}.

(** Outcome of a handler: the body passed to [reply.send], or an error
    status. *)
Inductive Reply (A : Type) : Type :=
| Sent (body : A)
| Status400 (error : string)
| Status500.
Arguments Sent {A} body.
Arguments Status400 {A} error.
Arguments Status500 {A}.

Definition interaction_types : list string :=
  ["custom_event"; "button_click"; "copy"; "form_submit"; "input_change"; "outbound"].

(** [type IN ('custom_event', ..., 'outbound')]. *)
Definition is_interaction (t : string) : bool :=
  existsb (String.eqb t) interaction_types.

(** [CONCAT('event:', type, IF(event_name != '' AND event_name IS NOT NULL,
    CONCAT(':', event_name), ''))], the same text in the three queries. *)
Definition event_label (e : Event) : string :=
  "event:" ++ type e ++
  match event_name e with
  | Some n => if negb (String.eqb n "") then ":" ++ n else ""
  | None => ""
  end.

(** [site_id = {siteId} timeStatement filterStatement]. *)
Definition base_predicate (env : Env) (siteId : Z) (e : Event) : bool :=
  ((site_id e =? siteId) && timeStatement env e && filterStatement env e)%bool.

(** [AND (type = 'pageview' OR type IN (...))], the disjunct present only
    when events are included. *)
Definition type_clause (includeEventsInJourney : bool) (e : Event) : bool :=
  (String.eqb (type e) "pageview"
   || (includeEventsInJourney && is_interaction (type e)))%bool.

(** [AND NOT (type IN (...) AND event_name IN (names))], present only for
    a non-empty list of names.  A NULL [event_name] makes [IN] NULL, and
    a NULL condition drops the row. *)
Definition exclude_clause (excludedEventNames : list string) (e : Event) : bool :=
  match excludedEventNames with
  | [] => true
  | _ =>
      if is_interaction (type e) then
        match event_name e with
        | Some n => negb (existsb (String.eqb n) excludedEventNames)
        | None => false
        end
      else true
  end.

(** [includeEvents === "true" || includeEvents === "1"]. *)
Definition parse_includeEvents (includeEvents : string) : bool :=
  (String.eqb includeEvents "true" || String.eqb includeEvents "1")%bool.

(** A row of the inner sub-select of [user_paths]. *)
Record LabelledEvent := mkLabelled {
  le_session_id : string;
  le_timestamp : Z;
  le_step_label : string
}.

(** [ORDER BY session_id, timestamp]. *)
Definition session_time_leb (a b : LabelledEvent) : bool :=
  (String.ltb (le_session_id a) (le_session_id b)
   || (String.eqb (le_session_id a) (le_session_id b)
       && (le_timestamp a <=? le_timestamp b)))%bool.

(** The inner sub-select of [user_paths]: the events passing the WHERE
    clause, labelled, in [(session_id, timestamp)] order. *)
Definition labelled_scan (label : Event -> string) (env : Env) (siteId : Z)
    (includeEventsInJourney : bool) (excludedEventNames : list string)
    (events : list Event) : list LabelledEvent :=
  Sql.order_by session_time_leb
    (map (fun e => mkLabelled (session_id e) (timestamp e) (label e))
       (filter (fun e => (base_predicate env siteId e
                          && type_clause includeEventsInJourney e
                          && exclude_clause excludedEventNames e)%bool)
          events)).

(** The rows of one [GROUP BY session_id] group. *)
Definition session_group (sid : string) (rows : list LabelledEvent) : list LabelledEvent :=
  filter (fun r => String.eqb (le_session_id r) sid) rows.

(** A row of the [user_paths] CTE. *)
Record UserPath := mkUserPath {
  up_session_id : string;
  path_sequence : list string;
  timestamps : list Z
}.

(** [SELECT session_id, arrayCompact(groupArray(step_label)),
    groupArray(timestamp) ... GROUP BY session_id
    HAVING length(path_sequence) >= 2]. *)
Definition user_paths_of (rows : list LabelledEvent) : list UserPath :=
  filter (fun up => 2 <=? Z.of_nat (List.length (path_sequence up)))
    (map (fun sid =>
            let g := session_group sid rows in
            mkUserPath sid
              (Sql.arrayCompact (map le_step_label g))
              (map le_timestamp g))
       (Sql.distinct String.eqb (map le_session_id rows))).

(* ================================================================== *)
(** ** getJourneys.ts *)
(* ================================================================== *)

Module Journeys.

(** The [stepFilters] query parameter by the outcome of [JSON.parse]:
    absent (or empty), not JSON, or an object given by its entries
    (position key, pattern). *)
Inductive StepFilters : Type :=
| NoStepFilters
| MalformedStepFilters
| ParsedStepFilters (entries : list (string * string)).

(** The query string.  [excludeEventNames] is the list the handler has
    after normalising the raw parameter (lines 27-43). *)
Record Query := mkQuery {
  steps : option string;
  limit : option string;
  stepFilters : StepFilters;
  includeEvents : option string;
  excludeEventNames : list string
}.

(** [IF(length(splitByChar('/', pathname)) >= 3,
       CONCAT('/', splitByChar('/', pathname)[2]), pathname)]. *)
Definition pathname_label (p : string) : string :=
  let parts := Sql.splitByChar "/" p in
  if 3 <=? Z.of_nat (List.length parts)
  then "/" ++ Sql.arrayElement "" parts 2
  else p.

(** The [CASE ... END AS step_label] of lines 104-111. *)
Definition step_label (e : Event) : string :=
  if String.eqb (type e) "pageview" then pathname_label (pathname e)
  else if is_interaction (type e) then event_label e
  else pathname_label (pathname e).

(** The [user_paths] CTE (lines 95-128). *)
Definition user_paths (env : Env) (siteId : Z) (includeEventsInJourney : bool)
    (excludedEventNames : list string) (events : list Event) : list UserPath :=
  user_paths_of
    (labelled_scan step_label env siteId includeEventsInJourney
       excludedEventNames events).

(** [path.includes("*")]. *)
Fixpoint includes_star (s : string) : bool :=
  match s with
  | EmptyString => false
  | String c rest => (Ascii.eqb c "*" || includes_star rest)%bool
  end.

(** One conjunct of the HAVING clause (lines 78-89), as a predicate on
    the journey.  [None] when the generated index is not one ClickHouse
    accepts ([NaN], or the constant 0), which fails the query. *)
Definition stepFilterCondition (env : Env) (entry : string * string)
    : option (list string -> bool) :=
  let (step, path) := entry in
  match Js.parseInt step with
  | None => None
  | Some n =>
      let stepIndex := n + 1 in
      if stepIndex =? 0 then None
      else if includes_star path
      then Some (fun journey =>
                   pattern_match env path (Sql.arrayElement "" journey stepIndex))
      else Some (fun journey =>
                   String.eqb (Sql.arrayElement "" journey stepIndex) path)
  end.

(** The conjunction of the conditions; no entry means no HAVING. *)
Fixpoint stepFilterConditions (env : Env) (entries : list (string * string))
    : option (list string -> bool) :=
  match entries with
  | [] => Some (fun _ => true)
  | entry :: rest =>
      match stepFilterCondition env entry, stepFilterConditions env rest with
      | Some c, Some cs => Some (fun journey => (c journey && cs journey)%bool)
      | _, _ => None
      end
  end.

Fixpoint path_eqb (a b : list string) : bool :=
  match a, b with
  | [], [] => true
  | x :: a', y :: b' => (String.eqb x y && path_eqb a' b')%bool
  | _, _ => false
  end.

(** The sessions of one [GROUP BY journey] group: those whose path,
    cut to its first [maxSteps] entries, is [journey]. *)
Definition group_sessions (maxSteps : Z) (paths : list UserPath)
    (journey : list string) : list string :=
  map up_session_id
    (filter (fun up =>
               path_eqb (Sql.arraySlice1 (path_sequence up) maxSteps) journey)
       paths).

(** [GROUP BY arraySlice(path_sequence, 1, maxSteps)]: each distinct
    truncated path with the sessions that share it. *)
Definition journey_groups (maxSteps : Z) (paths : list UserPath)
    : list (list string * list string) :=
  map (fun journey => (journey, group_sessions maxSteps paths journey))
    (Sql.distinct path_eqb
       (map (fun up => Sql.arraySlice1 (path_sequence up) maxSteps) paths)).

(** A row of the [journey_segments] CTE. *)
Record Segment := mkSegment {
  journey : list string;
  sessions_count : Z
}.

(** [ORDER BY sessions_count DESC]. *)
Definition count_desc (a b : Segment) : bool :=
  sessions_count b <=? sessions_count a.

(** The [journey_segments] CTE (lines 130-139). *)
Definition journey_segments (maxSteps journeyLimit : Z)
    (having : list string -> bool) (paths : list UserPath) : list Segment :=
  Sql.limit_offset journeyLimit 0
    (Sql.order_by count_desc
       (filter (fun s => having (journey s))
          (map (fun g => mkSegment (fst g) (Z.of_nat (List.length (snd g))))
             (journey_groups maxSteps paths)))).

(** The scalar sub-query of lines 145-149:
    [SELECT count(DISTINCT session_id) FROM events WHERE site/time/filter]. *)
Definition total_sessions (env : Env) (siteId : Z) (events : list Event) : Z :=
  Sql.count_distinct (map session_id (filter (base_predicate env siteId) events)).

(** An element of the [journeys] array of the response.  [percentage]
    is a Float64 in ClickHouse; it is kept as the exact quotient. *)
Record Journey := mkJourney {
  path : list string;
  count : Z;
  percentage : Q
}.

(** The final SELECT (lines 141-151) and the mapping of lines 162-168. *)
Definition journeys_of (env : Env) (siteId : Z) (events : list Event)
    (segments : list Segment) : list Journey :=
  map (fun s =>
         mkJourney (journey s) (sessions_count s)
           (inject_Z (sessions_count s * 100)
            / inject_Z (total_sessions env siteId events))%Q)
    segments.

(** [parsedStepFilters]: the entries of the parsed object, none
    without the parameter. *)
Definition parsedStepFilters (sf : StepFilters) : list (string * string) :=
  match sf with
  | ParsedStepFilters entries => entries
  | _ => []
  end.

(** The handler.  (The last branch is not reached: both numbers have
    passed the range checks.) *)
Definition getJourneys (env : Env) (siteId : Z) (q : Query)
    (events : list Event) : Reply (list Journey) :=
  let includeEventsInJourney :=
    parse_includeEvents (Js.with_default "true" (includeEvents q)) in
  let maxSteps := Js.parseInt (Js.with_default "3" (steps q)) in
  let journeyLimit := Js.parseInt (Js.with_default "100" (limit q)) in
  if Js.out_of_range maxSteps 2 10
  then Status400 "Steps parameter must be a number between 2 and 10"
  else if Js.out_of_range journeyLimit 1 500
  then Status400 "Limit parameter must be a number between 1 and 500"
  else
    match maxSteps, journeyLimit, stepFilters q with
    | _, _, MalformedStepFilters => Status400 "Invalid stepFilters format"
    | Some maxSteps, Some journeyLimit, sf =>
        match stepFilterConditions env (parsedStepFilters sf) with
        | None => Status500
        | Some having =>
            Sent (journeys_of env siteId events
                    (journey_segments maxSteps journeyLimit having
                       (user_paths env siteId includeEventsInJourney
                          (excludeEventNames q) events)))
        end
    | _, _, _ => Status500
    end.

End Journeys.

(* ================================================================== *)
(** ** getJourneyTransitionSessions.ts *)
(* ================================================================== *)

Module Transitions.

(** The query string; [excludeEventNames] as in [Journeys.Query]
    (normalised at lines 58-70). *)
Record Query := mkQuery {
  source : option string;
  target : option string;
  sourceStep : option string;
  targetStep : option string;
  includeEvents : option string;
  excludeEventNames : list string;
  limit : option string;
  page : option string
}.

(** [CASE WHEN startsWith(pathname, '/asset/draft/') THEN '/asset/draft'
    ELSE pathname END]. *)
Definition pathname_label (p : string) : string :=
  if Sql.startsWith p "/asset/draft/" then "/asset/draft" else p.

(** The [stepLabelCase] fragment (lines 73-88). *)
Definition stepLabelCase (e : Event) : string :=
  if String.eqb (type e) "pageview" then pathname_label (pathname e)
  else if is_interaction (type e) then event_label e
  else pathname_label (pathname e).

(** The [user_paths] CTE of the page query (lines 93-119). *)
Definition user_paths (env : Env) (siteId : Z) (includeEventsInJourney : bool)
    (excludedEventNames : list string) (events : list Event) : list UserPath :=
  user_paths_of
    (labelled_scan stepLabelCase env siteId includeEventsInJourney
       excludedEventNames events).

(** [${sourceStep ? `AND arrayIndexOf(...) = ${parseInt(sourceStep, 10) + 1}` : ""}]:
    no conjunct for an absent or empty parameter; a parameter that is
    not a number interpolates [NaN], which no index equals. *)
Definition step_clause (step : option string) (index : Z) : bool :=
  match step with
  | Some s =>
      if Js.truthy s then
        match Js.parseInt s with
        | Some n => index =? n + 1
        | None => false
        end
      else true
  | None => true
  end.

(** The WHERE clause shared by [matching_sessions] (lines 127-132) and
    the count query (lines 219-224). *)
Definition transition_where (src tgt : string) (sourceStep targetStep : option string)
    (up : UserPath) : bool :=
  let source_index := Sql.arrayIndexOf (path_sequence up) src in
  let target_index := Sql.arrayIndexOf (path_sequence up) tgt in
  ((0 <? source_index) && (0 <? target_index)
   && (source_index <? target_index)
   && step_clause sourceStep source_index
   && step_clause targetStep target_index)%bool.

(** A row of the [matching_sessions] CTE. *)
Record Match := mkMatch {
  ms_session_id : string;
  source_index : Z;
  target_index : Z;
  transition_timestamp : Z
}.

(** The [matching_sessions] CTE (lines 120-133). *)
Definition matching_sessions (src tgt : string) (sourceStep targetStep : option string)
    (paths : list UserPath) : list Match :=
  map (fun up =>
         mkMatch (up_session_id up)
           (Sql.arrayIndexOf (path_sequence up) src)
           (Sql.arrayIndexOf (path_sequence up) tgt)
           (Sql.arrayElement 0 (timestamps up)
              (Sql.arrayIndexOf (path_sequence up) src)))
    (filter (transition_where src tgt sourceStep targetStep) paths).

(** Value of [col] at a row of largest [timestamp], [d] for no row. *)
Definition argMax {A} (d : A) (col : Event -> A) (rows : list Event) : A :=
  match rows with
  | [] => d
  | e :: rest =>
      col (fold_left (fun best x =>
                        if timestamp best <? timestamp x then x else best)
             rest e)
  end.

(** Value of [col] at a row of smallest [timestamp], [d] for no row. *)
Definition argMin {A} (d : A) (col : Event -> A) (rows : list Event) : A :=
  match rows with
  | [] => d
  | e :: rest =>
      col (fold_left (fun best x =>
                        if timestamp x <? timestamp best then x else best)
             rest e)
  end.

Definition is_pageview (e : Event) : bool := String.eqb (type e) "pageview".

(** A row of the page query, with the aggregates over the columns of
    [Event]; the device, geography and referrer aggregates of lines
    141-154 and 162 are further [argMax]/[argMin] columns of the same
    group and are left out. *)
Record Session := mkSession {
  s_session_id : string;
  s_source_index : Z;
  s_target_index : Z;
  s_transition_timestamp : Z;
  s_user_id : string;
  s_identified_user_id : string;
  session_start : Z;
  session_end : Z;
  entry_page : string;
  exit_page : string;
  pageviews : Z;
  events_count : Z
}.

(** [FROM matching_sessions ms INNER JOIN events e ON ms.session_id =
    e.session_id WHERE e.site_id = {siteId} timeStatement GROUP BY
    ms.session_id, ms.source_index, ms.target_index,
    ms.transition_timestamp] (lines 134-167): one row per match that
    joins at least one event. *)
Definition materialize (env : Env) (siteId : Z) (events : list Event)
    (ms : Match) : list Session :=
  let joined :=
    filter (fun e => (String.eqb (ms_session_id ms) (session_id e)
                      && (site_id e =? siteId) && timeStatement env e)%bool)
      events in
  match joined with
  | [] => []
  | _ =>
      [mkSession (ms_session_id ms) (source_index ms) (target_index ms)
         (transition_timestamp ms)
         (argMax "" user_id joined)
         (argMax "" identified_user_id joined)
         (argMin 0 timestamp joined)
         (argMax 0 timestamp joined)
         (argMin "" pathname (filter is_pageview joined))
         (argMax "" pathname (filter is_pageview joined))
         (Z.of_nat (List.length (filter is_pageview joined)))
         (Z.of_nat (List.length
                      (filter (fun e => String.eqb (type e) "custom_event") joined)))]
  end.

(** [ORDER BY transition_timestamp DESC]. *)
Definition transition_desc (a b : Session) : bool :=
  s_transition_timestamp b <=? s_transition_timestamp a.

(** All the rows of the page query before [LIMIT]/[OFFSET]. *)
Definition ranked_sessions (env : Env) (siteId : Z) (src tgt : string)
    (sourceStep targetStep : option string) (includeEventsInJourney : bool)
    (excludedEventNames : list string) (events : list Event) : list Session :=
  Sql.order_by transition_desc
    (flat_map (materialize env siteId events)
       (matching_sessions src tgt sourceStep targetStep
          (user_paths env siteId includeEventsInJourney excludedEventNames events))).

(** The page query (lines 92-170) on its bound parameters: [offset] is
    the value of [{offset:Int32}], [None] when it could not be bound;
    the query fails then, and on a negative [OFFSET]. *)
Definition page_query (env : Env) (siteId : Z) (src tgt : string)
    (sourceStep targetStep : option string) (includeEventsInJourney : bool)
    (excludedEventNames : list string) (limitNum : Z) (offset : option Z)
    (events : list Event) : option (list Session) :=
  match offset with
  | None => None
  | Some o =>
      if o <? 0 then None
      else Some (Sql.limit_offset limitNum o
                   (ranked_sessions env siteId src tgt sourceStep targetStep
                      includeEventsInJourney excludedEventNames events))
  end.

(** The [user_paths] CTE of the count query (lines 191-216): the text
    of the page query's without the [timestamps] column. *)
Definition count_user_paths (env : Env) (siteId : Z) (includeEventsInJourney : bool)
    (excludedEventNames : list string) (events : list Event) : list UserPath :=
  map (fun up => mkUserPath (up_session_id up) (path_sequence up) [])
    (user_paths_of
       (labelled_scan stepLabelCase env siteId includeEventsInJourney
          excludedEventNames events)).

(** The count query (lines 190-235) and [countData[0]?.total || 0]. *)
Definition count_query (env : Env) (siteId : Z) (src tgt : string)
    (sourceStep targetStep : option string) (includeEventsInJourney : bool)
    (excludedEventNames : list string) (events : list Event) : Z :=
  Sql.count_distinct
    (map up_session_id
       (filter (transition_where src tgt sourceStep targetStep)
          (count_user_paths env siteId includeEventsInJourney
             excludedEventNames events))).

(** An element of [data]: a row of the page query with the traits
    attached to it. *)
Record EnrichedSession := mkEnriched {
  session : Session;
  traits : list (string * string)
}.

(** Modelled from the spec: [enrichWithTraits] of [./utils/utils.js],
    whose source is not embedded here.  For each session's resolved
    user identity it looks up the key/value traits in the external
    store and attaches them; the sessions themselves pass through, in
    the same order. *)
Definition enrichWithTraits (env : Env) (sessions : list Session)
    : list EnrichedSession :=
  map (fun s =>
         mkEnriched s
           (trait_store env
              (if Js.truthy (s_identified_user_id s)
               then s_identified_user_id s else s_user_id s)))
    sessions.

(** [pagination]; [page] is [pageNum] as parsed, [None] for [NaN]. *)
Record Pagination := mkPagination {
  total : Z;
  pg_page : option Z;
  pg_limit : Z;
  totalPages : Z
}.

Record Body := mkBody {
  data : list EnrichedSession;
  pagination : Pagination
}.

(** [offset = (pageNum - 1) * limitNum] on JavaScript numbers. *)
Definition js_offset (pageNum limitNum : option Z) : option Z :=
  match pageNum, limitNum with
  | Some p, Some l => Some ((p - 1) * l)
  | _, _ => None
  end.

(** The handler.  The parameters of the page query are bound as
    [Int32] (lines 169, 175-181): the limit, in 1..200 by then, always
    fits; the offset, computed from a page that is not checked, may not.
    (The last branch is not reached: source and target are present and
    the limit has passed its range check.) *)
Definition getJourneyTransitionSessions (env : Env) (siteId : Z) (q : Query)
    (events : list Event) : Reply Body :=
  if (negb (Js.truthy_opt (source q)) || negb (Js.truthy_opt (target q)))%bool
  then Status400 "source and target are required"
  else
    let includeEventsInJourney :=
      parse_includeEvents (Js.with_default "true" (includeEvents q)) in
    let limitNum := Js.parseInt (Js.with_default "50" (limit q)) in
    let pageNum := Js.parseInt (Js.with_default "1" (page q)) in
    let offset := js_offset pageNum limitNum in
    if Js.out_of_range limitNum 1 200
    then Status400 "limit must be between 1 and 200"
    else
      match source q, target q, limitNum with
      | Some src, Some tgt, Some limitNum =>
          match page_query env siteId src tgt (sourceStep q) (targetStep q)
                  includeEventsInJourney (excludeEventNames q) limitNum
                  (Sql.Int32 offset) events with
          | None => Status500
          | Some sessions =>
              let sessionsWithTraits := enrichWithTraits env sessions in
              let total :=
                count_query env siteId src tgt (sourceStep q) (targetStep q)
                  includeEventsInJourney (excludeEventNames q) events in
              Sent (mkBody sessionsWithTraits
                      (mkPagination total pageNum limitNum
                         (Js.ceil_div total limitNum)))
          end
      | _, _, _ => Status500
      end.

End Transitions.

(* ================================================================== *)
(** ** getJourneyStepEventDetails.ts (revision listing the raw events) *)
(* ================================================================== *)

Module StepDetails.

Record Query := mkQuery {
  stepLabel : option string;
  stepIndex : option string
}.

Definition pathname_label (p : string) : string :=
  if Sql.startsWith p "/asset/draft/" then "/asset/draft" else p.

(** The [CASE ... END AS step_label] of lines 69-82 (and 145-158). *)
Definition step_label (e : Event) : string :=
  if String.eqb (type e) "pageview" then pathname_label (pathname e)
  else if is_interaction (type e) then event_label e
  else pathname_label (pathname e).

(** A row of the [numbered_events] CTE. *)
Record Numbered := mkNumbered {
  ne_event : Event;
  ne_step_label : string;
  step_number : Z
}.

(** [ORDER BY timestamp] inside the window. *)
Definition time_leb (a b : Event) : bool := timestamp a <=? timestamp b.

(** [row_number() OVER (PARTITION BY session_id ORDER BY timestamp)]
    on one partition. *)
Fixpoint number_from (n : Z) (rows : list Event) : list Numbered :=
  match rows with
  | [] => []
  | e :: rest => mkNumbered e (step_label e) n :: number_from (n + 1) rest
  end.

(** The [numbered_events] CTE (lines 61-94 and 138-170). *)
Definition numbered_events (env : Env) (siteId : Z) (events : list Event)
    : list Numbered :=
  let scanned :=
    filter (fun e => (base_predicate env siteId e && type_clause true e)%bool)
      events in
  flat_map (fun sid =>
              number_from 1
                (Sql.order_by time_leb
                   (filter (fun e => String.eqb (session_id e) sid) scanned)))
    (Sql.distinct String.eqb (map session_id scanned)).

(** [stepIndex ? parseInt(stepIndex, 10) : null] and the conversion to
    a 1-based position (lines 53-54); the inner [None] is [NaN]. *)
Definition targetStepPosition (stepIndex : option string) : option (option Z) :=
  match stepIndex with
  | Some s =>
      if Js.truthy s then Some (option_map (fun n => n + 1) (Js.parseInt s))
      else None
  | None => None
  end.

(** [step_label = '<stepLabel>' AND step_number = <targetStepPosition>],
    the second conjunct only for a position; [NaN] equals no number. *)
Definition target_step_where (label : string) (position : option (option Z))
    (r : Numbered) : bool :=
  (String.eqb (ne_step_label r) label
   && match position with
      | None => true
      | Some (Some p) => step_number r =? p
      | Some None => false
      end)%bool.

(** The [target_step_events] CTE (lines 96-107): the retained events. *)
Definition target_step_events (label : string) (position : option (option Z))
    (rows : list Numbered) : list Event :=
  map ne_event (filter (target_step_where label position) rows).

(** [props != '{}' AND props IS NOT NULL] (lines 115-117). *)
Definition has_props (e : Event) : bool :=
  match props e with
  | Some (_ :: _) => true
  | _ => false
  end.

Definition events_with_props (retained : list Event) : list Event :=
  filter has_props retained.

Definition dquote : ascii := ascii_of_nat 34.

Fixpoint drop_last_quote (s : string) : string :=
  match s with
  | EmptyString => EmptyString
  | String c EmptyString => if Ascii.eqb c dquote then EmptyString else s
  | String c rest => String c (drop_last_quote rest)
  end.

(** [replaceRegexpAll(v, '^<quote>|<quote>$', '')]: drops one double
    quote at the start and one at the end. *)
Definition strip_quotes (v : string) : string :=
  match v with
  | String c rest => if Ascii.eqb c dquote then drop_last_quote rest
                     else drop_last_quote v
  | EmptyString => EmptyString
  end.

(** [ARRAY JOIN JSONExtractKeysAndValuesRaw(CAST(props AS String)) AS kv]
    with the two selected columns. *)
Definition key_values (e : Event) : list (string * string) :=
  match props e with
  | Some kvs => map (fun kv => (fst kv, strip_quotes (snd kv))) kvs
  | None => []
  end.

Definition kv_eqb (a b : string * string) : bool :=
  (String.eqb (fst a) (fst b) && String.eqb (snd a) (snd b))%bool.

(** A row of the first query. *)
Record PropertyRow := mkPropertyRow {
  propertyKey : string;
  propertyValue : string;
  pr_count : Z
}.

(** [GROUP BY propertyKey, propertyValue] with [count()]. *)
Definition property_counts (kvs : list (string * string)) : list PropertyRow :=
  map (fun kv =>
         mkPropertyRow (fst kv) (snd kv)
           (Z.of_nat (List.length (filter (kv_eqb kv) kvs))))
    (Sql.distinct kv_eqb kvs).

(** [ORDER BY propertyKey ASC, count DESC]. *)
Definition key_asc_count_desc (a b : PropertyRow) : bool :=
  (String.ltb (propertyKey a) (propertyKey b)
   || (String.eqb (propertyKey a) (propertyKey b)
       && (pr_count b <=? pr_count a)))%bool.

(** The first query (lines 60-129). *)
Definition property_rows (env : Env) (siteId : Z) (label : string)
    (position : option (option Z)) (events : list Event) : list PropertyRow :=
  Sql.limit_offset 500 0
    (Sql.order_by key_asc_count_desc
       (property_counts
          (flat_map key_values
             (events_with_props
                (target_step_events label position
                   (numbered_events env siteId events)))))).

(** An element of the [events] array of the response. *)
Record JourneyStepEvent := mkStepEvent {
  se_timestamp : Z;
  se_user_id : string;
  se_identified_user_id : string;
  se_session_id : string
}.




(** An entry of [groupedProperties[key]]. *)
Record ValueCount := mkValueCount {
  value : string;
  vc_count : Z
}.



(** The own properties of [groupedProperties], in order of creation. *)
Definition Obj : Type := list (string * list ValueCount).












Record Body := mkBody {
  properties : Obj;
  events : list JourneyStepEvent
}.


End StepDetails.

(* ================================================================== *)
(** ** Notions used to state the properties *)
(* ================================================================== *)

(** Two rows are in the order of an [ORDER BY] clause given by [leb]. *)
Definition ordered_by {A} (leb : A -> A -> bool) (a b : A) : Prop :=
  leb a b = true.

(** The collapsed path of session [sid] in a labelled scan: the
    [path_sequence] that the [GROUP BY] computes for the session, before
    the [HAVING] clause decides whether the row is kept. *)
Definition collapsed_path (sid : string) (rows : list LabelledEvent) : list string :=
  Sql.arrayCompact (map le_step_label (session_group sid rows)).

(** The 0-based position constraint a request supplies, if any. *)
Definition supplied_step (step : option string) : option Z :=
  match step with
  | Some s => if Js.truthy s then Js.parseInt s else None
  | None => None
  end.

(** A position constraint is either not supplied or a number. *)
Definition numeric_step (step : option string) : bool :=
  match step with
  | Some s =>
      if Js.truthy s
      then match Js.parseInt s with Some _ => true | None => false end
      else true
  | None => true
  end.

(** A label sequence given by its runs: each label with the number of
    extra consecutive repetitions. *)
Definition expand_runs (runs : list (string * nat)) : list string :=
  flat_map (fun r => repeat (fst r) (S (snd r))) runs.

(** No two neighbours are equal. *)
Fixpoint adjacent_distinct (l : list string) : bool :=
  match l with
  | x :: rest =>
      match rest with
      | y :: _ => (negb (String.eqb x y) && adjacent_distinct rest)%bool
      | [] => true
      end
  | [] => true
  end.

(** The identifier and transition timestamp of a page-query row, and of
    a [matching_sessions] row. *)
Definition session_key (s : Transitions.Session) : string * Z :=
  (Transitions.s_session_id s, Transitions.s_transition_timestamp s).

Definition match_key (m : Transitions.Match) : string * Z :=
  (Transitions.ms_session_id m, Transitions.transition_timestamp m).


(** The events of session [sid] that pass the WHERE clause of
    [user_paths], in timestamp order (events with equal timestamps in
    table order). *)
Definition session_events (env : Env) (siteId : Z) (includeEventsInJourney : bool)
    (excludedEventNames : list string) (events : list Event) (sid : string)
    : list Event :=
  Sql.order_by (fun a b => timestamp a <=? timestamp b)
    (filter (fun e => (String.eqb (session_id e) sid
                       && (base_predicate env siteId e
                           && type_clause includeEventsInJourney e
                           && exclude_clause excludedEventNames e))%bool)
       events).

(** The number of distinct sessions with an event meeting the base
    site/time/filter predicate, whatever the event and however short the
    session's path. *)
Definition base_sessions (env : Env) (siteId : Z) (events : list Event) : list string :=
  Sql.distinct String.eqb (map session_id (filter (base_predicate env siteId) events)).




(** The raw JSON text of a string value. *)
Definition json_string (s : string) : string :=
  String StepDetails.dquote (s ++ String StepDetails.dquote "").

(** The timestamp of the first event of a session that carries the label
    [src]: the occurrence of the step that the first entry [src] of the
    collapsed path stands for. *)
Definition first_occurrence_timestamp (label : Event -> string) (src : string)
    (session : list Event) : option Z :=
  option_map timestamp (find (fun e => String.eqb (label e) src) session).



(* ================================================================== *)
(** ** Sample data *)
(* ================================================================== *)

Module Sample.

(** No time or filter restriction, no wildcard match, no traits. *)
Definition env : Env :=
  mkEnv (fun _ => true) (fun _ => true) (fun _ _ => false) (fun _ => []).

Definition pageview (sid : string) (ts : Z) (p : string) : Event :=
  mkEvent 1 sid ts "pageview" p None None "" "".


(** One session going /a, /b and one session that only sees /x. *)
Definition two_sessions : list Event :=
  [pageview "s1" 1 "/a"; pageview "s1" 2 "/b"; pageview "s2" 1 "/x";
   pageview "s2" 2 "/x"].

(** A session that reloads /a before moving to /b and /c. *)
Definition reload_session : list Event :=
  [pageview "s1" 10 "/a"; pageview "s1" 20 "/a"; pageview "s1" 30 "/b";
   pageview "s1" 40 "/c"].

(** A session labelled a, a, b, c, c, c. *)
Definition runs_session : list Event :=
  [pageview "s1" 1 "/a"; pageview "s1" 2 "/a"; pageview "s1" 3 "/b";
   pageview "s1" 4 "/c"; pageview "s1" 5 "/c"; pageview "s1" 6 "/c"].

Definition journeys_query : Journeys.Query :=
  Journeys.mkQuery None None Journeys.NoStepFilters None [].

Definition transition_query (src tgt : string) (limit page : option string)
    : Transitions.Query :=
  Transitions.mkQuery (Some src) (Some tgt) None None None [] limit page.

Fixpoint session_name (n : nat) : string :=
  match n with
  | O => "s"
  | S k => String "x" (session_name k)
  end.

(** [n] sessions, each going /a then /b, session [k] at times
    [2k] and [2k + 1]. *)
Fixpoint many_sessions (n : nat) : list Event :=
  match n with
  | O => []
  | S k =>
      pageview (session_name k) (2 * Z.of_nat k) "/a"
      :: pageview (session_name k) (2 * Z.of_nat k + 1) "/b"
      :: many_sessions k
  end.



End Sample.

(* ================================================================== *)
(** ** The [excludeEventNames] parameter *)
(* ================================================================== *)

Module ExcludeNames.

(** The parameter by the outcome of [JSON.parse] on it: absent (or
    empty), a JSON array, given by [String(name)] of its items, or any
    other text, whether it parses to something else or does not parse. *)
Inductive Param : Type :=
| Absent
| JsonArray (items : list string)
| OtherText (raw : string).

Fixpoint trim_end (s : string) : string :=
  match s with
  | EmptyString => EmptyString
  | String c rest =>
      match trim_end rest with
      | EmptyString => if Js.is_space c then EmptyString else String c EmptyString
      | t => String c t
      end
  end.

(** [name.trim()], on the ASCII white space characters. *)
Definition trim (s : string) : string := trim_end (Js.skip_spaces s).

(** [raw.split(",")]: for a one-character separator the pieces are those
    of [splitByChar]. *)
Definition split (sep : ascii) (raw : string) : list string :=
  Sql.splitByChar sep raw.

(** [.map(name => name.trim()).filter(Boolean)]. *)
Definition normalise (names : list string) : list string :=
  filter Js.truthy (map trim names).

(** Lines 27-43 of getJourneys.ts and 58-70 of
    getJourneyTransitionSessions.ts: the array's items, or the pieces of
    the comma-separated text, trimmed, without the empty ones. *)
Definition excludedEventNames (p : Param) : list string :=
  match p with
  | Absent => []
  | JsonArray items => normalise items
  | OtherText raw => normalise (split "," raw)
  end.

End ExcludeNames.

(* ================================================================== *)
(** ** The client: endpoints, hook and events page *)
(* ================================================================== *)

Module Client.

(** [Number.isSafeInteger(n)] on an integer: at most 2^53 - 1 in size.
    The numeric fields of the client are JavaScript numbers; they are
    modelled where they are safe integers. *)
Definition isSafeInteger (n : Z) : bool := Z.abs n <=? 9007199254740991.

(** [String(n)] for a safe integer [n], printed in plain decimal, which
    is also how such a number is written into the query string.  (Not
    the text of a number that is no safe integer: [String] rounds from
    2^53 and switches to exponent notation at 10^21.) *)
Definition toString (n : Z) : string :=
  DecimalString.NilZero.string_of_int (Z.to_int n).

(** [String(b)]. *)
Definition boolToString (b : bool) : string := if b then "true" else "false".

(** [JourneyTransitionSessionsParams], without the time and filter
    fields handled by [toQueryParams]. *)
Record TransitionSessionsParams := mkTransitionSessionsParams {
  source : string;
  target : string;
  sourceStep : option Z;
  targetStep : option Z;
  includeEvents : option bool;
  excludeEventNames : option (list string);
  limit : option Z;
  page : option Z
}.

(** The query string that [fetchJourneyTransitionSessions] (endpoints,
    lines 267-290) sends, as the server reads it: every field that is
    not [undefined] arrives as a string, and the JSON text of a
    non-empty [excludeEventNames] is parsed back to the array. *)
Definition fetchJourneyTransitionSessions (p : TransitionSessionsParams)
    : Transitions.Query :=
  Transitions.mkQuery
    (Some (source p))
    (Some (target p))
    (option_map toString (sourceStep p))
    (option_map toString (targetStep p))
    (option_map boolToString (includeEvents p))
    (ExcludeNames.excludedEventNames
       match excludeEventNames p with
       | Some (name :: names) => ExcludeNames.JsonArray (name :: names)
       | _ => ExcludeNames.Absent
       end)
    (option_map toString (limit p))
    (option_map toString (page p)).



Definition or_default {A} (d : A) (o : option A) : A :=
  match o with Some a => a | None => d end.



(** The visible event types of the events page: a [Set], held as the
    list of its members in insertion order. *)
Definition initialVisibleTypes : list string :=
  ["pageview"; "custom_event"; "outbound"; "button_click"; "copy";
   "form_submit"; "input_change"; "error"].

(** [set.has(type)]. *)
Definition has (set : list string) (type : string) : bool :=
  existsb (String.eqb type) set.

(** [toggleEventType] (events page, lines 34-44). *)
Definition toggleEventType (type : string) (prev : list string) : list string :=
  if has prev type
  then filter (fun t => negb (String.eqb t type)) prev
  else (prev ++ [type])%list.

(** [allEvents] of [EventLog] (lines 147-152) on the flattened pages;
    [type_of] reads the [type] field of an event. *)
Definition allEvents {E : Type} (type_of : E -> string)
    (visibleTypes : option (list string)) (events : list E) : list E :=
  match visibleTypes with
  | None => events
  | Some [] => events
  | Some set => filter (fun event => has set (type_of event)) events
  end.

End Client.

(* ================================================================== *)
(** ** Further notions used to state the properties *)
(* ================================================================== *)

(** A parsed number lies in a range. *)
Definition in_range (x : option Z) (lo hi : Z) : Prop :=
  exists n, x = Some n /\ lo <= n <= hi.

(** Neither the first nor the last character is white space. *)
Definition trimmed (s : string) : Prop :=
  Js.skip_spaces s = s /\ ExcludeNames.trim_end s = s.

(** The text has no comma. *)
Fixpoint comma_free (s : string) : bool :=
  match s with
  | EmptyString => true
  | String c rest => (negb (Ascii.eqb c ",") && comma_free rest)%bool
  end.

(** [ORDER BY sessions_count DESC] as a relation on journeys. *)
Definition larger_first (a b : Journeys.Journey) : Prop :=
  Journeys.count b <= Journeys.count a.

(** Sum of a column. *)
Definition sum_of {A} (col : A -> Z) (rows : list A) : Z :=
  fold_right (fun r acc => col r + acc) 0 rows.

(** The pages 1 to [n] of a listing, one after the other. *)
Fixpoint pages_upto {A} (page : Z -> list A) (n : nat) : list A :=
  match n with
  | O => []
  | S k => (pages_upto page k ++ page (Z.of_nat (S k)))%list
  end.

(** The events of session [sid] that [numbered_events] numbers, in the
    order of their numbers: the pageviews and interactions of the
    session that meet the site/time/filter predicate, by timestamp. *)
Definition numbered_session (env : Env) (siteId : Z) (table : list Event)
    (sid : string) : list Event :=
  Sql.order_by StepDetails.time_leb
    (filter (fun e => String.eqb (session_id e) sid)
       (filter (fun e => (base_predicate env siteId e && type_clause true e)%bool)
          table)).

(* ================================================================== *)
(** ** Facts about the SQL clauses *)
(* ================================================================== *)

Section OrderBy.
Context {A : Type} (leb : A -> A -> bool).

Lemma insert_by_perm (x : A) (l : list A) :
  Permutation (x :: l) (Sql.insert_by leb x l).
Proof.
  induction l as [|y l IH]; simpl; [reflexivity|].
  destruct (leb x y); [reflexivity|].
  rewrite perm_swap. now apply perm_skip.
Qed.

Lemma order_by_perm (l : list A) : Permutation l (Sql.order_by leb l).
Proof.
  induction l as [|x l IH]; simpl; [reflexivity|].
  rewrite <- insert_by_perm. now apply perm_skip.
Qed.

Lemma order_by_In (x : A) (l : list A) : In x (Sql.order_by leb l) <-> In x l.
Proof.
  split; apply Permutation_in; [symmetry|]; apply order_by_perm.
Qed.

Lemma order_by_length (l : list A) :
  List.length (Sql.order_by leb l) = List.length l.
Proof. symmetry. apply Permutation_length, order_by_perm. Qed.

Hypothesis leb_total : forall a b, leb a b = true \/ leb b a = true.

Lemma insert_by_sorted (x : A) (l : list A) :
  Sorted (ordered_by leb) l -> Sorted (ordered_by leb) (Sql.insert_by leb x l).
Proof.
  induction 1 as [|y l Hl IH Hy]; simpl.
  - repeat constructor.
  - destruct (leb x y) eqn:E.
    + repeat constructor; assumption.
    + constructor; [assumption|].
      destruct l as [|z l]; simpl.
      * constructor. unfold ordered_by.
        destruct (leb_total x y); congruence.
      * destruct (leb x z); constructor.
        -- unfold ordered_by. destruct (leb_total x y); congruence.
        -- now inversion Hy.
Qed.

Lemma order_by_sorted (l : list A) : Sorted (ordered_by leb) (Sql.order_by leb l).
Proof.
  induction l; simpl; [constructor | now apply insert_by_sorted].
Qed.

End OrderBy.

Section Distinct.
Context {A : Type} (eqb : A -> A -> bool).
Hypothesis eqb_eq : forall a b, eqb a b = true <-> a = b.

Lemma distinct_In (x : A) (l : list A) : In x (Sql.distinct eqb l) <-> In x l.
Proof.
  induction l as [|y l IH]; simpl; [tauto|].
  rewrite filter_In, IH. split.
  - intros [H | [H _]]; auto.
  - intros [H | H]; auto.
    destruct (eqb x y) eqn:E.
    + left. symmetry. now apply eqb_eq.
    + right. split; [assumption | reflexivity].
Qed.

Lemma distinct_NoDup (l : list A) : NoDup (Sql.distinct eqb l).
Proof.
  induction l as [|y l IH]; simpl; constructor.
  - rewrite filter_In. intros [_ H]. cbn beta in H.
    assert (E : eqb y y = true) by now apply eqb_eq.
    now rewrite E in H.
  - now apply NoDup_filter.
Qed.

End Distinct.

Lemma In_firstn {A} (n : nat) (x : A) (l : list A) : In x (firstn n l) -> In x l.
Proof.
  intros H. rewrite <- (firstn_skipn n l). apply in_or_app. now left.
Qed.

Lemma In_skipn {A} (n : nat) (x : A) (l : list A) : In x (skipn n l) -> In x l.
Proof.
  intros H. rewrite <- (firstn_skipn n l). apply in_or_app. now right.
Qed.

Lemma limit_offset_In {A} (n o : Z) (x : A) (l : list A) :
  In x (Sql.limit_offset n o l) -> In x l.
Proof. intros H. eapply In_skipn, In_firstn, H. Qed.

(** *** [arrayIndexOf] *)

Lemma arrayIndexOf_range (arr : list string) (x : string) :
  0 <= Sql.arrayIndexOf arr x <= Z.of_nat (List.length arr).
Proof.
  induction arr as [|y arr IH]; simpl List.length; simpl Sql.arrayIndexOf; [lia|].
  destruct (String.eqb y x); [lia|].
  destruct (Sql.arrayIndexOf arr x =? 0) eqn:E; lia.
Qed.

Lemma arrayIndexOf_pos_In (arr : list string) (x : string) :
  0 < Sql.arrayIndexOf arr x <-> In x arr.
Proof.
  induction arr as [|y arr IH]; simpl; [split; [lia | tauto]|].
  destruct (String.eqb_spec y x) as [->|N].
  - split; [auto | lia].
  - pose proof (arrayIndexOf_range arr x) as R.
    destruct (Sql.arrayIndexOf arr x =? 0) eqn:E.
    + apply Z.eqb_eq in E. split; [lia|].
      intros [H|H]; [congruence|]. apply IH in H. lia.
    + apply Z.eqb_neq in E. split; [|lia].
      intros _. right. apply IH. lia.
Qed.

(** The element at a positive index is the one looked for. *)
Lemma arrayIndexOf_nth (arr : list string) (x : string) :
  0 < Sql.arrayIndexOf arr x ->
  nth_error arr (Z.to_nat (Sql.arrayIndexOf arr x - 1)) = Some x.
Proof.
  induction arr as [|y arr IH]; simpl; [lia|].
  destruct (String.eqb_spec y x) as [->|N]; [reflexivity|].
  pose proof (arrayIndexOf_range arr x) as R.
  destruct (Sql.arrayIndexOf arr x =? 0) eqn:E; [lia|].
  apply Z.eqb_neq in E. intros _.
  replace (Sql.arrayIndexOf arr x + 1 - 1) with (Z.succ (Sql.arrayIndexOf arr x - 1)) by lia.
  rewrite Z2Nat.inj_succ by lia. simpl. apply IH. lia.
Qed.

(** *** Rows of [user_paths] *)

Lemma session_time_leb_total (a b : LabelledEvent) :
  session_time_leb a b = true \/ session_time_leb b a = true.
Proof.
  unfold session_time_leb, String.ltb.
  rewrite (String.compare_antisym (le_session_id b) (le_session_id a)).
  destruct (String.compare (le_session_id a) (le_session_id b)) eqn:C; simpl; auto.
  apply String.compare_eq_iff in C. rewrite C, String.eqb_refl. simpl.
  destruct (Z.leb_spec (le_timestamp a) (le_timestamp b)); [now left|].
  right. apply Z.leb_le. lia.
Qed.

Lemma user_paths_of_In (rows : list LabelledEvent) (up : UserPath) :
  In up (user_paths_of rows) <->
  up = mkUserPath (up_session_id up)
         (collapsed_path (up_session_id up) rows)
         (map le_timestamp (session_group (up_session_id up) rows))
  /\ 2 <= Z.of_nat (List.length (collapsed_path (up_session_id up) rows)).
Proof.
  unfold user_paths_of. rewrite filter_In, in_map_iff. split.
  - intros [[sid [<- Hin]] Hlen]. simpl in *. split; [reflexivity|].
    apply Z.leb_le in Hlen. exact Hlen.
  - intros [Hup Hlen]. split.
    + exists (up_session_id up). split; [now symmetry|].
      apply distinct_In; [apply String.eqb_eq|].
      unfold collapsed_path in Hlen.
      destruct (session_group (up_session_id up) rows) as [|r g] eqn:G;
        [simpl in Hlen; lia|].
      assert (Hr : In r (session_group (up_session_id up) rows))
        by (rewrite G; now left).
      unfold session_group in Hr. apply filter_In in Hr as [Hr E].
      apply String.eqb_eq in E. rewrite <- E. now apply in_map.
    + rewrite Hup. simpl. now apply Z.leb_le.
Qed.

Lemma user_paths_of_NoDup (rows : list LabelledEvent) :
  NoDup (map up_session_id (user_paths_of rows)).
Proof.
  unfold user_paths_of.
  set (mk := fun sid : string => _).
  assert (Hsub : forall l : list string,
             NoDup l ->
             NoDup (map up_session_id
                      (filter (fun up => 2 <=? Z.of_nat (List.length (path_sequence up)))
                         (map mk l)))).
  { induction 1 as [|x l Hx Hl IH]; simpl; [constructor|].
    destruct (2 <=? _); [|assumption].
    simpl. constructor; [|assumption].
    intros Hin. apply in_map_iff in Hin as [up [E Hup]].
    apply filter_In in Hup as [Hup _].
    apply in_map_iff in Hup as [y [<- Hy]]. simpl in E. now subst. }
  apply Hsub, distinct_NoDup, String.eqb_eq.
Qed.

(** *** The WHERE clause of the transition queries *)

Lemma step_clause_spec (step : option string) (index : Z) :
  numeric_step step = true ->
  (Transitions.step_clause step index = true <->
   forall n, supplied_step step = Some n -> index = n + 1).
Proof.
  unfold numeric_step, Transitions.step_clause, supplied_step.
  destruct step as [s|]; [|intros _; split; [discriminate | reflexivity]].
  destruct (Js.truthy s); [|intros _; split; [discriminate | reflexivity]].
  destruct (Js.parseInt s) as [n|]; [intros _ | discriminate].
  rewrite Z.eqb_eq. split.
  - intros -> m [= <-]. reflexivity.
  - intros H. now apply H.
Qed.

Lemma transition_where_spec (src tgt : string) (sourceStep targetStep : option string)
    (up : UserPath) :
  numeric_step sourceStep = true -> numeric_step targetStep = true ->
  (Transitions.transition_where src tgt sourceStep targetStep up = true <->
   0 < Sql.arrayIndexOf (path_sequence up) src
   /\ 0 < Sql.arrayIndexOf (path_sequence up) tgt
   /\ Sql.arrayIndexOf (path_sequence up) src < Sql.arrayIndexOf (path_sequence up) tgt
   /\ (forall n, supplied_step sourceStep = Some n ->
                 Sql.arrayIndexOf (path_sequence up) src = n + 1)
   /\ (forall n, supplied_step targetStep = Some n ->
                 Sql.arrayIndexOf (path_sequence up) tgt = n + 1)).
Proof.
  intros Hs Ht. unfold Transitions.transition_where.
  rewrite !andb_true_iff, !Z.ltb_lt.
  rewrite (step_clause_spec sourceStep _ Hs), (step_clause_spec targetStep _ Ht).
  tauto.
Qed.

(** A path in which the source comes first and the target later has at
    least two entries, so the HAVING clause never removes a session that
    the WHERE clause would keep. *)
Lemma transition_where_length (src tgt : string) (sourceStep targetStep : option string)
    (up : UserPath) :
  Transitions.transition_where src tgt sourceStep targetStep up = true ->
  2 <= Z.of_nat (List.length (path_sequence up)).
Proof.
  unfold Transitions.transition_where.
  rewrite !andb_true_iff, !Z.ltb_lt. intros [[[[H1 H2] H3] _] _].
  pose proof (arrayIndexOf_range (path_sequence up) tgt). lia.
Qed.

Lemma matching_sessions_ids (src tgt : string) (sourceStep targetStep : option string)
    (paths : list UserPath) :
  map Transitions.ms_session_id
    (Transitions.matching_sessions src tgt sourceStep targetStep paths) =
  map up_session_id
    (filter (Transitions.transition_where src tgt sourceStep targetStep) paths).
Proof. unfold Transitions.matching_sessions. now rewrite map_map. Qed.

Lemma matching_session_In (src tgt : string) (sourceStep targetStep : option string)
    (rows : list LabelledEvent) (sid : string) :
  In sid (map up_session_id
            (filter (Transitions.transition_where src tgt sourceStep targetStep)
               (user_paths_of rows))) <->
  Transitions.transition_where src tgt sourceStep targetStep
    (mkUserPath sid (collapsed_path sid rows) []) = true.
Proof.
  rewrite in_map_iff. split.
  - intros [up [<- Hup]]. apply filter_In in Hup as [Hup Hw].
    apply user_paths_of_In in Hup as [Hup _]. rewrite Hup in Hw. exact Hw.
  - intros Hw.
    exists (mkUserPath sid (collapsed_path sid rows)
              (map le_timestamp (session_group sid rows))).
    split; [reflexivity|]. apply filter_In. split; [|exact Hw].
    apply user_paths_of_In. simpl. split; [reflexivity|].
    now apply transition_where_length in Hw.
Qed.

Lemma count_user_paths_filter (src tgt : string) (sourceStep targetStep : option string)
    (l : list UserPath) :
  map up_session_id
    (filter (Transitions.transition_where src tgt sourceStep targetStep)
       (map (fun up => mkUserPath (up_session_id up) (path_sequence up) []) l)) =
  map up_session_id
    (filter (Transitions.transition_where src tgt sourceStep targetStep) l).
Proof.
  induction l as [|up l IH]; simpl; [reflexivity|].
  change (Transitions.transition_where src tgt sourceStep targetStep
            (mkUserPath (up_session_id up) (path_sequence up) []))
    with (Transitions.transition_where src tgt sourceStep targetStep up).
  destruct (Transitions.transition_where src tgt sourceStep targetStep up);
    simpl; now rewrite IH.
Qed.

(** C3.  A session is retained by [matching_sessions], and counted by the
    count query, exactly when the first-occurrence indices of source and
    target in its collapsed path are positive, the source index is
    smaller than the target index, and each supplied 0-based constraint
    plus one equals the corresponding index.  On the example paths:
    [/a, /b] qualifies for source [/a] and target [/b], [/b, /a] does
    not, and [/a, /x, /b] qualifies exactly for constraints that are
    unset or 0 and 2. *)
Theorem transition_retained_iff
    (env : Env) (siteId : Z) (src tgt : string) (sourceStep targetStep : option string)
    (includeEventsInJourney : bool) (excludedEventNames : list string)
    (events : list Event) (sid : string) :
  numeric_step sourceStep = true ->
  numeric_step targetStep = true ->
  let p := collapsed_path sid
             (labelled_scan Transitions.stepLabelCase env siteId
                includeEventsInJourney excludedEventNames events) in
  let source_index := Sql.arrayIndexOf p src in
  let target_index := Sql.arrayIndexOf p tgt in
  let qualifies :=
    0 < source_index /\ 0 < target_index /\ source_index < target_index
    /\ (forall n, supplied_step sourceStep = Some n -> source_index = n + 1)
    /\ (forall n, supplied_step targetStep = Some n -> target_index = n + 1) in
  (In sid (map Transitions.ms_session_id
             (Transitions.matching_sessions src tgt sourceStep targetStep
                (Transitions.user_paths env siteId includeEventsInJourney
                   excludedEventNames events)))
   <-> qualifies)
  /\ (In sid (map up_session_id
                (filter (Transitions.transition_where src tgt sourceStep targetStep)
                   (Transitions.count_user_paths env siteId includeEventsInJourney
                      excludedEventNames events)))
      <-> qualifies)
  /\ (forall ts, Transitions.transition_where "/a" "/b" None None
                   (mkUserPath sid ["/a"; "/b"] ts) = true)
  /\ (forall ts, Transitions.transition_where "/a" "/b" sourceStep targetStep
                   (mkUserPath sid ["/b"; "/a"] ts) = false)
  /\ (forall ts, Transitions.transition_where "/a" "/b" sourceStep targetStep
                   (mkUserPath sid ["/a"; "/x"; "/b"] ts) = true
                 <-> (supplied_step sourceStep = None \/ supplied_step sourceStep = Some 0)
                     /\ (supplied_step targetStep = None \/ supplied_step targetStep = Some 2)).
Proof.
  intros Hs Ht p source_index target_index qualifies.
  assert (Hrow : Transitions.transition_where src tgt sourceStep targetStep
                   (mkUserPath sid p []) = true <-> qualifies).
  { apply (transition_where_spec src tgt sourceStep targetStep
             (mkUserPath sid p []) Hs Ht). }
  split; [|split; [|split; [|split]]].
  - rewrite matching_sessions_ids. unfold Transitions.user_paths.
    rewrite matching_session_In. exact Hrow.
  - unfold Transitions.count_user_paths. rewrite count_user_paths_filter.
    rewrite matching_session_In. exact Hrow.
  - reflexivity.
  - intros ts. reflexivity.
  - intros ts. rewrite (transition_where_spec _ _ _ _ _ Hs Ht). simpl.
    split.
    + intros (_ & _ & _ & H1 & H2). split.
      * destruct (supplied_step sourceStep) as [n|]; [|now left].
        right. f_equal. specialize (H1 n eq_refl). lia.
      * destruct (supplied_step targetStep) as [n|]; [|now left].
        right. f_equal. specialize (H2 n eq_refl). lia.
    + intros [[H1|H1] [H2|H2]]; rewrite H1, H2;
        (repeat split; try lia; intros n [= <-]; reflexivity) ||
        (repeat split; try lia; try discriminate; intros n [= <-]; reflexivity).
Qed.

(** *** The page query and the count query *)

Lemma filter_all {A} (f : A -> bool) (l : list A) :
  (forall x, In x l -> f x = true) -> filter f l = l.
Proof.
  induction l as [|x l IH]; simpl; intros H; [reflexivity|].
  rewrite (H x (or_introl eq_refl)). f_equal. apply IH. intros y Hy. apply H. now right.
Qed.

Lemma distinct_of_NoDup (l : list string) :
  NoDup l -> Sql.distinct String.eqb l = l.
Proof.
  induction 1 as [|x l Hx Hl IH]; simpl; [reflexivity|].
  rewrite IH. f_equal. apply filter_all. intros y Hy.
  apply negb_true_iff, String.eqb_neq. intros ->. contradiction.
Qed.

(** A WHERE clause keeps a key column free of duplicates. *)
Lemma NoDup_map_filter {Row Key : Type} (key : Row -> Key) (keep : Row -> bool)
    (rows : list Row) (Hkeys : NoDup (map key rows)) :
  NoDup (map key (filter keep rows)).
Proof.
  induction rows as [|r rows IH]; simpl in *; [constructor|].
  apply NoDup_cons_iff in Hkeys as [Hr Hrows].
  destruct (keep r); simpl; [|now apply IH].
  constructor; [|now apply IH].
  intros Hin. apply Hr. apply in_map_iff in Hin as [r' [E Hr']].
  apply filter_In in Hr' as [Hr' _]. apply in_map_iff. now exists r'.
Qed.

(** Every session of the scan has an event of the site in the time range. *)
Lemma labelled_scan_event (label : Event -> string) (env : Env) (siteId : Z)
    (inc : bool) (excl : list string) (events : list Event) (sid : string) :
  In sid (map le_session_id (labelled_scan label env siteId inc excl events)) ->
  exists e, In e events /\ session_id e = sid /\ base_predicate env siteId e = true
            /\ type_clause inc e = true /\ exclude_clause excl e = true.
Proof.
  unfold labelled_scan. intros H.
  apply in_map_iff in H as [r [<- Hr]].
  apply order_by_In in Hr. apply in_map_iff in Hr as [e [<- He]].
  apply filter_In in He as [He Hk].
  rewrite !andb_true_iff in Hk. destruct Hk as [[Hb Ht] Hx].
  exists e. simpl. repeat split; assumption.
Qed.

Lemma user_paths_of_session (rows : list LabelledEvent) (up : UserPath) :
  In up (user_paths_of rows) -> In (up_session_id up) (map le_session_id rows).
Proof.
  unfold user_paths_of. intros H. apply filter_In in H as [H _].
  apply in_map_iff in H as [sid [<- H]]. simpl.
  exact (proj1 (distinct_In String.eqb String.eqb_eq _ _) H).
Qed.

Lemma materialize_keys (env : Env) (siteId : Z) (events : list Event)
    (ms : list Transitions.Match) :
  (forall m, In m ms ->
     exists e, In e events /\ session_id e = Transitions.ms_session_id m
               /\ base_predicate env siteId e = true) ->
  map session_key (flat_map (Transitions.materialize env siteId events) ms) =
  map match_key ms.
Proof.
  induction ms as [|m ms IH]; intros H; [reflexivity|].
  simpl flat_map. rewrite map_app, IH by (intros m' Hm'; apply H; now right).
  simpl map. destruct (H m (or_introl eq_refl)) as [e [He [Hs Hb]]].
  unfold Transitions.materialize.
  destruct (filter _ events) as [|e' joined] eqn:J.
  - exfalso.
    assert (Hin : In e (filter
              (fun e0 => (String.eqb (Transitions.ms_session_id m) (session_id e0)
                          && (site_id e0 =? siteId) && timeStatement env e0)%bool)
              events)).
    { apply filter_In. split; [assumption|].
      unfold base_predicate in Hb. rewrite !andb_true_iff in Hb.
      destruct Hb as [[Hb1 Hb2] _].
      rewrite Hs, String.eqb_refl, Hb1, Hb2. reflexivity. }
    rewrite J in Hin. destruct Hin.
  - reflexivity.
Qed.


Lemma ranked_sessions_keys (env : Env) (siteId : Z) (src tgt : string)
    (sourceStep targetStep : option string) (inc : bool) (excl : list string)
    (events : list Event) :
  Permutation
    (map session_key
       (Transitions.ranked_sessions env siteId src tgt sourceStep targetStep
          inc excl events))
    (map match_key
       (Transitions.matching_sessions src tgt sourceStep targetStep
          (Transitions.user_paths env siteId inc excl events))).
Proof.
  unfold Transitions.ranked_sessions.
  rewrite <- (order_by_perm Transitions.transition_desc).
  rewrite materialize_keys; [reflexivity|].
  intros m Hm. unfold Transitions.matching_sessions in Hm.
  apply in_map_iff in Hm as [up [<- Hup]]. simpl.
  apply filter_In in Hup as [Hup _].
  apply user_paths_of_session in Hup.
  apply labelled_scan_event in Hup as [e [He [Hs [Hb _]]]].
  exists e. auto.
Qed.

Lemma matching_sessions_NoDup (src tgt : string) (sourceStep targetStep : option string)
    (rows : list LabelledEvent) :
  NoDup (map Transitions.ms_session_id
           (Transitions.matching_sessions src tgt sourceStep targetStep
              (user_paths_of rows))).
Proof.
  rewrite matching_sessions_ids. apply NoDup_map_filter, user_paths_of_NoDup.
Qed.

Lemma count_query_length (env : Env) (siteId : Z) (src tgt : string)
    (sourceStep targetStep : option string) (inc : bool) (excl : list string)
    (events : list Event) :
  Transitions.count_query env siteId src tgt sourceStep targetStep inc excl events =
  Z.of_nat (List.length
              (Transitions.matching_sessions src tgt sourceStep targetStep
                 (Transitions.user_paths env siteId inc excl events))).
Proof.
  unfold Transitions.count_query, Transitions.count_user_paths, Sql.count_distinct.
  rewrite count_user_paths_filter.
  rewrite distinct_of_NoDup
    by (apply NoDup_map_filter, user_paths_of_NoDup).
  rewrite <- matching_sessions_ids. unfold Transitions.user_paths.
  now rewrite length_map.
Qed.


Lemma ceil_div_spec (total limit : Z) :
  0 <= total -> 0 < limit ->
  (Js.ceil_div total limit - 1) * limit < total <= Js.ceil_div total limit * limit.
Proof.
  intros Ht Hl. unfold Js.ceil_div.
  pose proof (Z.div_mod (total + limit - 1) limit ltac:(lia)) as E.
  pose proof (Z.mod_pos_bound (total + limit - 1) limit Hl) as B.
  nia.
Qed.


Lemma enrichWithTraits_sessions (env : Env) (l : list Transitions.Session) :
  map Transitions.session (Transitions.enrichWithTraits env l) = l.
Proof.
  unfold Transitions.enrichWithTraits. rewrite map_map. simpl. apply map_id.
Qed.

Lemma Int32_fits (n : Z) :
  -2147483648 <= n <= 2147483647 -> Sql.Int32 (Some n) = Some n.
Proof.
  intros [Hlo Hhi]. unfold Sql.Int32.
  apply Z.leb_le in Hlo, Hhi. now rewrite Hlo, Hhi.
Qed.

Lemma Int32_inv (x : option Z) (n : Z) :
  Sql.Int32 x = Some n -> x = Some n /\ -2147483648 <= n <= 2147483647.
Proof.
  destruct x as [m|]; [|discriminate]. unfold Sql.Int32.
  destruct (Z.leb_spec (-2147483648) m), (Z.leb_spec m 2147483647);
    simpl; try discriminate.
  intros E. injection E as <-. split; [reflexivity | lia].
Qed.


(** *** [ORDER BY session_id, timestamp] and the groups of [user_paths] *)

Lemma ascii_compare_refl (a : ascii) : Ascii.compare a a = Eq.
Proof. unfold Ascii.compare. apply N.compare_refl. Qed.

Lemma string_compare_refl (s : string) : String.compare s s = Eq.
Proof.
  induction s as [|a s IH]; simpl; [reflexivity|].
  now rewrite ascii_compare_refl.
Qed.

Lemma string_compare_lt_trans (a b c : string) :
  String.compare a b = Lt -> String.compare b c = Lt -> String.compare a c = Lt.
Proof.
  revert b c. induction a as [|x a IH]; intros [|y b] [|z c]; simpl;
    try discriminate; try reflexivity.
  destruct (Ascii.compare x y) eqn:Exy; try discriminate;
    destruct (Ascii.compare y z) eqn:Eyz; try discriminate; intros H1 H2.
  - apply Ascii.compare_eq_iff in Exy, Eyz. subst.
    rewrite ascii_compare_refl. now apply IH with b.
  - apply Ascii.compare_eq_iff in Exy. subst. now rewrite Eyz.
  - apply Ascii.compare_eq_iff in Eyz. subst. now rewrite Exy.
  - unfold Ascii.compare in *. rewrite N.compare_lt_iff in *.
    assert (H : (N_of_ascii x < N_of_ascii z)%N) by lia.
    apply N.compare_lt_iff in H. now rewrite H.
Qed.

Lemma string_ltb_trans (a b c : string) :
  String.ltb a b = true -> String.ltb b c = true -> String.ltb a c = true.
Proof.
  unfold String.ltb. intros H1 H2.
  destruct (String.compare a b) eqn:E1; try discriminate.
  destruct (String.compare b c) eqn:E2; try discriminate.
  now rewrite (string_compare_lt_trans a b c E1 E2).
Qed.

Lemma session_time_leb_trans (a b c : LabelledEvent) :
  session_time_leb a b = true -> session_time_leb b c = true ->
  session_time_leb a c = true.
Proof.
  unfold session_time_leb. rewrite !orb_true_iff, !andb_true_iff.
  intros [H1 | [H1 T1]] [H2 | [H2 T2]].
  - left. now apply string_ltb_trans with (le_session_id b).
  - apply String.eqb_eq in H2. rewrite <- H2. now left.
  - apply String.eqb_eq in H1. rewrite H1. now left.
  - apply String.eqb_eq in H1, H2. right. rewrite H1, H2, String.eqb_refl.
    split; [reflexivity|]. apply Z.leb_le. apply Z.leb_le in T1, T2. lia.
Qed.

Section OrderByFilter.
Context {A : Type} (leb : A -> A -> bool).
Hypothesis leb_total : forall a b, leb a b = true \/ leb b a = true.
Hypothesis leb_trans :
  forall a b c, leb a b = true -> leb b c = true -> leb a c = true.

Lemma order_by_strongly_sorted (l : list A) :
  StronglySorted (ordered_by leb) (Sql.order_by leb l).
Proof.
  apply Sorted_StronglySorted.
  - intros a b c. apply leb_trans.
  - now apply order_by_sorted.
Qed.

Lemma insert_by_head (x : A) (l : list A) :
  Forall (ordered_by leb x) l -> Sql.insert_by leb x l = x :: l.
Proof.
  destruct 1 as [|y l Hy _]; simpl; [reflexivity|]. now rewrite Hy.
Qed.

(** A WHERE clause over an ordered sub-select selects an ordered list:
    filtering commutes with [ORDER BY]. *)
Lemma filter_insert_by (p : A -> bool) (x : A) (l : list A) :
  StronglySorted (ordered_by leb) l ->
  filter p (Sql.insert_by leb x l) =
  if p x then Sql.insert_by leb x (filter p l) else filter p l.
Proof.
  induction 1 as [|y l Hl IH Hy]; simpl.
  - now destruct (p x).
  - destruct (leb x y) eqn:E; simpl.
    + destruct (p x) eqn:Px; [|reflexivity].
      symmetry. apply insert_by_head.
      assert (Hall : Forall (ordered_by leb x) (y :: l)).
      { constructor; [exact E|].
        eapply Forall_impl; [|exact Hy]. intros z Hz.
        now apply leb_trans with y. }
      rewrite Forall_forall in *. intros z Hz.
      apply Hall. change (In z (filter p (y :: l))) in Hz.
      now apply filter_In in Hz as [Hz _].
    + rewrite IH. destruct (p y) eqn:Py, (p x) eqn:Px; simpl;
        try reflexivity. now rewrite E.
Qed.

Lemma filter_order_by (p : A -> bool) (l : list A) :
  filter p (Sql.order_by leb l) = Sql.order_by leb (filter p l).
Proof.
  induction l as [|x l IH]; simpl; [reflexivity|].
  rewrite filter_insert_by by apply order_by_strongly_sorted.
  rewrite IH. now destruct (p x).
Qed.

End OrderByFilter.

Lemma insert_by_ext {A} (leb leb' : A -> A -> bool) (x : A) (l : list A) :
  (forall y, In y l -> leb x y = leb' x y) ->
  Sql.insert_by leb x l = Sql.insert_by leb' x l.
Proof.
  induction l as [|y l IH]; simpl; intros H; [reflexivity|].
  rewrite <- (H y (or_introl eq_refl)).
  destruct (leb x y); [reflexivity|]. f_equal. apply IH.
  intros z Hz. apply H. now right.
Qed.

Lemma order_by_ext {A} (leb leb' : A -> A -> bool) (l : list A) :
  (forall x y, In x l -> In y l -> leb x y = leb' x y) ->
  Sql.order_by leb l = Sql.order_by leb' l.
Proof.
  induction l as [|x l IH]; simpl; intros H; [reflexivity|].
  rewrite IH by (intros; apply H; now right).
  apply insert_by_ext. intros y Hy. apply order_by_In in Hy.
  apply H; [now left | now right].
Qed.

Lemma insert_by_map {A B} (f : A -> B) (leb : B -> B -> bool) (x : A) (l : list A) :
  Sql.insert_by leb (f x) (map f l) =
  map f (Sql.insert_by (fun a b => leb (f a) (f b)) x l).
Proof.
  induction l as [|y l IH]; simpl; [reflexivity|].
  destruct (leb (f x) (f y)); simpl; [reflexivity|]. now rewrite IH.
Qed.

Lemma order_by_map {A B} (f : A -> B) (leb : B -> B -> bool) (l : list A) :
  Sql.order_by leb (map f l) =
  map f (Sql.order_by (fun a b => leb (f a) (f b)) l).
Proof.
  induction l as [|x l IH]; simpl; [reflexivity|].
  now rewrite IH, insert_by_map.
Qed.

Lemma filter_map_comm {A B} (f : A -> B) (p : B -> bool) (l : list A) :
  filter p (map f l) = map f (filter (fun a => p (f a)) l).
Proof.
  induction l as [|x l IH]; simpl; [reflexivity|].
  destruct (p (f x)); simpl; rewrite IH; reflexivity.
Qed.

Lemma filter_filter_and {A} (p q : A -> bool) (l : list A) :
  filter p (filter q l) = filter (fun a => (p a && q a)%bool) l.
Proof.
  induction l as [|x l IH]; simpl; [reflexivity|].
  destruct (q x) eqn:Q; simpl; destruct (p x) eqn:P; simpl;
    rewrite ?P, ?IH; reflexivity.
Qed.

(** The group of a session in the scan is the session's events that pass
    the WHERE clause, in timestamp order. *)
Lemma session_group_scan (label : Event -> string) (env : Env) (siteId : Z)
    (inc : bool) (excl : list string) (events : list Event) (sid : string) :
  session_group sid (labelled_scan label env siteId inc excl events) =
  map (fun e => mkLabelled (session_id e) (timestamp e) (label e))
    (session_events env siteId inc excl events sid).
Proof.
  unfold session_group, labelled_scan, session_events.
  rewrite (filter_order_by session_time_leb session_time_leb_total
             session_time_leb_trans).
  rewrite filter_map_comm, order_by_map. f_equal.
  rewrite filter_filter_and. cbn [le_session_id].
  apply order_by_ext. intros x y Hx Hy.
  apply filter_In in Hx as [_ Hx], Hy as [_ Hy].
  rewrite !andb_true_iff in Hx, Hy.
  destruct Hx as [Hx _], Hy as [Hy _].
  apply String.eqb_eq in Hx, Hy.
  unfold session_time_leb. cbn [le_session_id le_timestamp].
  rewrite Hx, Hy, String.eqb_refl. unfold String.ltb.
  now rewrite string_compare_refl.
Qed.

(** *** [arrayCompact] *)

Lemma arrayCompact_cons (x : string) (l : list string) :
  Sql.arrayCompact (x :: l) =
  match Sql.arrayCompact l with
  | [] => [x]
  | y :: t => if String.eqb x y then y :: t else x :: y :: t
  end.
Proof.
  revert x. induction l as [|y l IH]; intros x; [reflexivity|].
  change (Sql.arrayCompact (x :: y :: l))
    with (if String.eqb x y then Sql.arrayCompact (y :: l)
          else x :: Sql.arrayCompact (y :: l)).
  rewrite (IH y).
  destruct (Sql.arrayCompact l) as [|z t].
  - reflexivity.
  - destruct (String.eqb_spec y z) as [->|N]; reflexivity.
Qed.

Lemma arrayCompact_adjacent_distinct (l : list string) :
  adjacent_distinct (Sql.arrayCompact l) = true.
Proof.
  induction l as [|x l IH]; [reflexivity|].
  rewrite arrayCompact_cons.
  destruct (Sql.arrayCompact l) as [|y t]; [reflexivity|].
  destruct (String.eqb x y) eqn:E; [exact IH|].
  change (adjacent_distinct (x :: y :: t))
    with (negb (String.eqb x y) && adjacent_distinct (y :: t))%bool.
  now rewrite E, IH.
Qed.

Lemma arrayCompact_id (l : list string) :
  adjacent_distinct l = true -> Sql.arrayCompact l = l.
Proof.
  induction l as [|x l IH]; [reflexivity|].
  destruct l as [|y l]; [reflexivity|].
  change (adjacent_distinct (x :: y :: l))
    with (negb (String.eqb x y) && adjacent_distinct (y :: l))%bool.
  rewrite andb_true_iff, negb_true_iff. intros [E H].
  change (Sql.arrayCompact (x :: y :: l))
    with (if String.eqb x y then Sql.arrayCompact (y :: l)
          else x :: Sql.arrayCompact (y :: l)).
  now rewrite E, IH.
Qed.

Lemma arrayCompact_run (x : string) (n : nat) (l : list string) :
  Sql.arrayCompact (repeat x (S n) ++ l)%list = Sql.arrayCompact (x :: l).
Proof.
  induction n as [|n IH]; [reflexivity|].
  change (repeat x (S (S n)) ++ l)%list with (x :: (repeat x (S n) ++ l))%list.
  rewrite arrayCompact_cons, IH, arrayCompact_cons.
  destruct (Sql.arrayCompact l) as [|y t].
  - now rewrite String.eqb_refl.
  - destruct (String.eqb x y) eqn:E.
    + now rewrite E.
    + now rewrite String.eqb_refl.
Qed.

Lemma arrayCompact_expand_runs (runs : list (string * nat)) :
  Sql.arrayCompact (expand_runs runs) = Sql.arrayCompact (map fst runs).
Proof.
  induction runs as [|[x n] runs IH]; [reflexivity|].
  unfold expand_runs in *. cbn [flat_map map fst snd].
  now rewrite arrayCompact_run, !arrayCompact_cons, IH.
Qed.

(** C6.  The path of a session is its label sequence, in timestamp
    order, with every run of equal consecutive labels collapsed to one
    entry: if the labels are the runs [runs] (neighbouring runs carrying
    different labels, so that a label may come back later), the path is
    the list of the runs' labels, and the session's row holds it when it
    has two entries or more.  Every row of [user_paths] holds such a
    path, without equal neighbours.  In particular labels
    [a,a,b,c,c,c] give [a,b,c], and [a,b,a] stays [a,b,a]. *)
Theorem session_path_collapses
    (label : Event -> string) (env : Env) (siteId : Z) (inc : bool)
    (excl : list string) (events : list Event) (sid : string)
    (runs : list (string * nat)) :
  map label (session_events env siteId inc excl events sid) = expand_runs runs ->
  adjacent_distinct (map fst runs) = true ->
  let rows := labelled_scan label env siteId inc excl events in
  collapsed_path sid rows = map fst runs
  /\ ((2 <= List.length runs)%nat ->
      In (mkUserPath sid (map fst runs)
            (map timestamp (session_events env siteId inc excl events sid)))
         (user_paths_of rows))
  /\ (forall up, In up (user_paths_of rows) ->
        path_sequence up =
        Sql.arrayCompact
          (map label
             (session_events env siteId inc excl events (up_session_id up)))
        /\ adjacent_distinct (path_sequence up) = true)
  /\ (forall a b c : string,
        a <> b -> b <> c ->
        Sql.arrayCompact [a; a; b; c; c; c] = [a; b; c])
  /\ (forall a b : string, a <> b -> Sql.arrayCompact [a; b; a] = [a; b; a]).
Proof.
  intros Hlabels Hruns rows.
  assert (Hgroup : forall s,
            map le_step_label (session_group s rows) =
            map label (session_events env siteId inc excl events s)).
  { intros s. unfold rows. rewrite session_group_scan, map_map. reflexivity. }
  assert (Hpath : collapsed_path sid rows = map fst runs).
  { unfold collapsed_path. rewrite Hgroup, Hlabels, arrayCompact_expand_runs.
    now apply arrayCompact_id. }
  split; [exact Hpath|]. split; [|split; [|split]].
  - intros Hlen. apply user_paths_of_In. cbn [up_session_id]. split.
    + rewrite Hpath. f_equal. unfold rows.
      rewrite session_group_scan, map_map. reflexivity.
    + rewrite Hpath, length_map. lia.
  - intros up Hup. apply user_paths_of_In in Hup as [Hup _].
    rewrite Hup. cbn [path_sequence up_session_id]. unfold collapsed_path.
    rewrite Hgroup. split; [reflexivity | apply arrayCompact_adjacent_distinct].
  - intros a b c Hab Hbc. simpl.
    apply String.eqb_neq in Hab, Hbc.
    now rewrite !String.eqb_refl, Hab, Hbc.
  - intros a b Hab. simpl.
    assert (Hba : String.eqb b a = false)
      by (apply String.eqb_neq; congruence).
    apply String.eqb_neq in Hab. now rewrite Hab, Hba.
Qed.

(** *** Rows of [journey_segments] and of the response of [getJourneys] *)

Lemma path_eqb_eq (a b : list string) : Journeys.path_eqb a b = true <-> a = b.
Proof.
  revert b. induction a as [|x a IH]; intros [|y b]; simpl;
    try (split; [discriminate | discriminate]); [tauto|].
  rewrite andb_true_iff, String.eqb_eq, IH. split.
  - intros [-> ->]. reflexivity.
  - intros [= -> ->]. auto.
Qed.

Lemma count_desc_total (a b : Journeys.Segment) :
  Journeys.count_desc a b = true \/ Journeys.count_desc b a = true.
Proof.
  unfold Journeys.count_desc.
  destruct (Z.leb_spec (Journeys.sessions_count b) (Journeys.sessions_count a));
    [now left|].
  right. apply Z.leb_le. lia.
Qed.

(** A journey of the response is a group of [user_paths] rows: its path
    is the truncated path of one of them, its count the size of the
    group, and its percentage the count over the distinct sessions of
    the base predicate. *)
Lemma journeys_of_In (env : Env) (siteId : Z) (events : list Event)
    (maxSteps journeyLimit : Z) (having : list string -> bool)
    (paths : list UserPath) (j : Journeys.Journey) :
  In j (Journeys.journeys_of env siteId events
          (Journeys.journey_segments maxSteps journeyLimit having paths)) ->
  (exists up, In up paths
              /\ Journeys.path j = Sql.arraySlice1 (path_sequence up) maxSteps)
  /\ Journeys.count j =
     Z.of_nat (List.length (Journeys.group_sessions maxSteps paths (Journeys.path j)))
  /\ having (Journeys.path j) = true
  /\ Journeys.percentage j =
     (inject_Z (Journeys.count j * 100)
      / inject_Z (Journeys.total_sessions env siteId events))%Q.
Proof.
  unfold Journeys.journeys_of, Journeys.journey_segments.
  intros H. apply in_map_iff in H as [s [<- Hs]].
  apply limit_offset_In, order_by_In, filter_In in Hs as [Hs Hh].
  apply in_map_iff in Hs as [g [<- Hg]].
  unfold Journeys.journey_groups in Hg.
  apply in_map_iff in Hg as [jp [<- Hjp]].
  apply (proj1 (distinct_In Journeys.path_eqb path_eqb_eq _ _)) in Hjp.
  apply in_map_iff in Hjp as [up [<- Hup]].
  cbn [Journeys.path Journeys.count Journeys.percentage Journeys.journey
       Journeys.sessions_count fst snd] in *.
  repeat split; try assumption. now exists up.
Qed.

Lemma getJourneys_sent (env : Env) (siteId : Z) (q : Journeys.Query)
    (events : list Event) (maxSteps journeyLimit : Z)
    (having : list string -> bool) :
  Js.parseInt (Js.with_default "3" (Journeys.steps q)) = Some maxSteps ->
  2 <= maxSteps <= 10 ->
  Js.parseInt (Js.with_default "100" (Journeys.limit q)) = Some journeyLimit ->
  1 <= journeyLimit <= 500 ->
  Journeys.stepFilters q <> Journeys.MalformedStepFilters ->
  Journeys.stepFilterConditions env
    (Journeys.parsedStepFilters (Journeys.stepFilters q)) = Some having ->
  Journeys.getJourneys env siteId q events =
  Sent (Journeys.journeys_of env siteId events
          (Journeys.journey_segments maxSteps journeyLimit having
             (Journeys.user_paths env siteId
                (parse_includeEvents
                   (Js.with_default "true" (Journeys.includeEvents q)))
                (Journeys.excludeEventNames q) events))).
Proof.
  intros Hs Hsr Hl Hlr Hsf Hc. unfold Journeys.getJourneys.
  rewrite Hs, Hl. unfold Js.out_of_range.
  destruct (Z.ltb_spec maxSteps 2); [lia|]. destruct (Z.ltb_spec 10 maxSteps); [lia|].
  destruct (Z.ltb_spec journeyLimit 1); [lia|].
  destruct (Z.ltb_spec 500 journeyLimit); [lia|].
  cbn [orb]. cbv iota.
  destruct (Journeys.stepFilters q) eqn:E; try congruence;
    rewrite Hc; reflexivity.
Qed.

(** C10.  For a request with [steps] in 2..10 (and a limit and step
    filters that are accepted), the reply is sent and every journey in it
    is the first [steps] entries of the full collapsed path of a session
    whose full path has at least two entries; so its length is at least 2
    and at most [steps]. *)
Theorem journey_path_length
    (env : Env) (siteId : Z) (q : Journeys.Query) (events : list Event)
    (maxSteps journeyLimit : Z) (having : list string -> bool) :
  Js.parseInt (Js.with_default "3" (Journeys.steps q)) = Some maxSteps ->
  2 <= maxSteps <= 10 ->
  Js.parseInt (Js.with_default "100" (Journeys.limit q)) = Some journeyLimit ->
  1 <= journeyLimit <= 500 ->
  Journeys.stepFilters q <> Journeys.MalformedStepFilters ->
  Journeys.stepFilterConditions env
    (Journeys.parsedStepFilters (Journeys.stepFilters q)) = Some having ->
  exists js,
    Journeys.getJourneys env siteId q events = Sent js
    /\ forall j, In j js ->
         2 <= Z.of_nat (List.length (Journeys.path j)) <= maxSteps
         /\ exists up,
              In up (Journeys.user_paths env siteId
                       (parse_includeEvents
                          (Js.with_default "true" (Journeys.includeEvents q)))
                       (Journeys.excludeEventNames q) events)
              /\ 2 <= Z.of_nat (List.length (path_sequence up))
              /\ Journeys.path j = firstn (Z.to_nat maxSteps) (path_sequence up).
Proof.
  intros Hs Hsr Hl Hlr Hsf Hc. eexists. split.
  - apply (getJourneys_sent env siteId q events maxSteps journeyLimit having);
      assumption.
  - intros j Hj. apply journeys_of_In in Hj as [[up [Hup Hp]] _].
    assert (Hlen : 2 <= Z.of_nat (List.length (path_sequence up))).
    { unfold Journeys.user_paths in Hup.
      apply user_paths_of_In in Hup as [E Hlen]. rewrite E. exact Hlen. }
    split.
    + rewrite Hp. unfold Sql.arraySlice1. rewrite length_firstn. lia.
    + exists up. auto.
Qed.

Lemma base_sessions_In (env : Env) (siteId : Z) (events : list Event) (sid : string) :
  In sid (base_sessions env siteId events) <->
  exists e, In e events /\ session_id e = sid /\ base_predicate env siteId e = true.
Proof.
  unfold base_sessions.
  rewrite (distinct_In String.eqb String.eqb_eq), in_map_iff.
  split.
  - intros [e [Hs He]]. apply filter_In in He as [He Hb]. now exists e.
  - intros [e [He [Hs Hb]]]. exists e. split; [assumption|].
    apply filter_In. now split.
Qed.

Lemma total_sessions_base (env : Env) (siteId : Z) (events : list Event) :
  Journeys.total_sessions env siteId events =
  Z.of_nat (List.length (base_sessions env siteId events)).
Proof. reflexivity. Qed.

Lemma group_sessions_bound (env : Env) (siteId : Z) (inc : bool)
    (excl : list string) (events : list Event) (maxSteps : Z)
    (journey : list string) :
  (List.length
     (Journeys.group_sessions maxSteps
        (Journeys.user_paths env siteId inc excl events) journey)
   <= List.length (base_sessions env siteId events))%nat.
Proof.
  apply NoDup_incl_length.
  - unfold Journeys.group_sessions, Journeys.user_paths.
    apply NoDup_map_filter, user_paths_of_NoDup.
  - intros sid Hsid. unfold Journeys.group_sessions in Hsid.
    apply in_map_iff in Hsid as [up [<- Hup]].
    apply filter_In in Hup as [Hup _].
    apply user_paths_of_session, labelled_scan_event in Hup
      as [e [He [Hs [Hb _]]]].
    apply base_sessions_In. now exists e.
Qed.

(** C4.  For an accepted request the reply is sent, and the percentage
    of every journey in it is [100 * count / D], with [D] the number of
    distinct sessions having an event that meets the base
    site/time/filter predicate: a session counts in [D] through any such
    event, whether or not its path reaches two steps.  ([D] is positive
    and at least the count whenever a journey is returned.) *)
Theorem journey_percentage
    (env : Env) (siteId : Z) (q : Journeys.Query) (events : list Event)
    (maxSteps journeyLimit : Z) (having : list string -> bool) :
  Js.parseInt (Js.with_default "3" (Journeys.steps q)) = Some maxSteps ->
  2 <= maxSteps <= 10 ->
  Js.parseInt (Js.with_default "100" (Journeys.limit q)) = Some journeyLimit ->
  1 <= journeyLimit <= 500 ->
  Journeys.stepFilters q <> Journeys.MalformedStepFilters ->
  Journeys.stepFilterConditions env
    (Journeys.parsedStepFilters (Journeys.stepFilters q)) = Some having ->
  let D := Z.of_nat (List.length (base_sessions env siteId events)) in
  NoDup (base_sessions env siteId events)
  /\ (forall sid,
        In sid (base_sessions env siteId events) <->
        exists e, In e events /\ session_id e = sid
                  /\ base_predicate env siteId e = true)
  /\ exists js,
       Journeys.getJourneys env siteId q events = Sent js
       /\ forall j, In j js ->
            0 < Journeys.count j <= D
            /\ (Journeys.percentage j
                == 100 * inject_Z (Journeys.count j) / inject_Z D)%Q.
Proof.
  intros Hs Hsr Hl Hlr Hsf Hc D.
  split; [apply distinct_NoDup, String.eqb_eq|].
  split; [apply base_sessions_In|].
  eexists. split.
  - apply (getJourneys_sent env siteId q events maxSteps journeyLimit having);
      assumption.
  - intros j Hj.
    apply journeys_of_In in Hj as [[up [Hup Hp]] [Hcount [_ Hpct]]].
    split.
    + rewrite Hcount. split.
      * assert (Hin : In (up_session_id up)
                        (Journeys.group_sessions maxSteps
                           (Journeys.user_paths env siteId
                              (parse_includeEvents
                                 (Js.with_default "true" (Journeys.includeEvents q)))
                              (Journeys.excludeEventNames q) events)
                           (Journeys.path j))).
        { unfold Journeys.group_sessions. apply in_map, filter_In.
          split; [assumption|]. apply path_eqb_eq. now symmetry. }
        destruct (Journeys.group_sessions _ _ _); [destruct Hin | simpl; lia].
      * unfold D. apply inj_le, group_sessions_bound.
    + rewrite Hpct, total_sessions_base. fold D.
      rewrite inject_Z_mult. unfold Qdiv. ring.
Qed.

(** A session whose collapsed path has a single entry has no row in
    [user_paths]. *)
Lemma single_step_not_in_user_paths (rows : list LabelledEvent) (sid : string) :
  List.length (collapsed_path sid rows) = 1%nat ->
  ~ In sid (map up_session_id (user_paths_of rows)).
Proof.
  intros Hlen Hin. apply in_map_iff in Hin as [up [<- Hup]].
  apply user_paths_of_In in Hup as [_ H]. rewrite Hlen in H. lia.
Qed.

(** C7.  A session whose collapsed path has length 1 is in the group of
    no journey returned by [getJourneys] (each journey's count is the
    size of its group), is no row of the page returned by
    [getJourneyTransitionSessions], and is not among the distinct
    sessions that its pagination total counts. *)
Theorem single_step_session_excluded
    (env : Env) (siteId : Z) (events : list Event) (sid : string) :
  (forall (q : Journeys.Query) (js : list Journeys.Journey) (maxSteps : Z),
     let paths :=
       Journeys.user_paths env siteId
         (parse_includeEvents (Js.with_default "true" (Journeys.includeEvents q)))
         (Journeys.excludeEventNames q) events in
     Journeys.getJourneys env siteId q events = Sent js ->
     Js.parseInt (Js.with_default "3" (Journeys.steps q)) = Some maxSteps ->
     List.length
       (collapsed_path sid
          (labelled_scan Journeys.step_label env siteId
             (parse_includeEvents (Js.with_default "true" (Journeys.includeEvents q)))
             (Journeys.excludeEventNames q) events)) = 1%nat ->
     forall j, In j js ->
       Journeys.count j =
       Z.of_nat (List.length (Journeys.group_sessions maxSteps paths (Journeys.path j)))
       /\ ~ In sid (Journeys.group_sessions maxSteps paths (Journeys.path j)))
  /\ (forall (q : Transitions.Query) (body : Transitions.Body) (src tgt : string),
        let inc :=
          parse_includeEvents (Js.with_default "true" (Transitions.includeEvents q)) in
        let counted :=
          map up_session_id
            (filter (Transitions.transition_where src tgt
                       (Transitions.sourceStep q) (Transitions.targetStep q))
               (Transitions.count_user_paths env siteId inc
                  (Transitions.excludeEventNames q) events)) in
        Transitions.getJourneyTransitionSessions env siteId q events = Sent body ->
        Transitions.source q = Some src ->
        Transitions.target q = Some tgt ->
        List.length
          (collapsed_path sid
             (labelled_scan Transitions.stepLabelCase env siteId inc
                (Transitions.excludeEventNames q) events)) = 1%nat ->
        ~ In sid (map (fun s => Transitions.s_session_id (Transitions.session s))
                    (Transitions.data body))
        /\ NoDup counted
        /\ ~ In sid counted
        /\ Transitions.total (Transitions.pagination body) =
           Z.of_nat (List.length counted)).
Proof.
  split.
  - intros q js maxSteps paths Hreply Hs Hlen j Hj.
    assert (Hjs : exists journeyLimit having,
               js = Journeys.journeys_of env siteId events
                      (Journeys.journey_segments maxSteps journeyLimit having paths)).
    { unfold Journeys.getJourneys in Hreply. rewrite Hs in Hreply.
      destruct (Js.out_of_range (Some maxSteps) 2 10); [discriminate|].
      destruct (Js.parseInt (Js.with_default "100" (Journeys.limit q)))
        as [journeyLimit|]; [|discriminate].
      destruct (Js.out_of_range (Some journeyLimit) 1 500); [discriminate|].
      destruct (Journeys.stepFilters q); try discriminate;
        destruct (Journeys.stepFilterConditions env _) as [having|];
        try discriminate; injection Hreply as <-;
        exists journeyLimit, having; reflexivity. }
    destruct Hjs as [journeyLimit [having ->]].
    apply journeys_of_In in Hj as [_ [Hcount _]].
    split; [exact Hcount|].
    intros Hin. unfold Journeys.group_sessions in Hin.
    apply in_map_iff in Hin as [up [E Hup]]. apply filter_In in Hup as [Hup _].
    apply (single_step_not_in_user_paths _ sid Hlen).
    apply in_map_iff. now exists up.
  - intros q body src tgt inc counted Hreply Hsrc Htgt Hlen.
    assert (Hcounted : counted =
              map Transitions.ms_session_id
                (Transitions.matching_sessions src tgt
                   (Transitions.sourceStep q) (Transitions.targetStep q)
                   (Transitions.user_paths env siteId inc
                      (Transitions.excludeEventNames q) events))).
    { unfold counted, Transitions.count_user_paths.
      now rewrite count_user_paths_filter, matching_sessions_ids. }
    assert (Hnot : ~ In sid counted).
    { unfold counted, Transitions.count_user_paths.
      rewrite count_user_paths_filter. intros Hin.
      apply in_map_iff in Hin as [up [E Hup]]. apply filter_In in Hup as [Hup _].
      apply (single_step_not_in_user_paths _ sid Hlen).
      apply in_map_iff. now exists up. }
    unfold Transitions.getJourneyTransitionSessions in Hreply.
    rewrite Hsrc, Htgt in Hreply.
    destruct (negb _ || negb _)%bool; [discriminate|].
    destruct (Js.parseInt (Js.with_default "50" (Transitions.limit q)))
      as [l|]; [|discriminate].
    destruct (Js.out_of_range (Some l) 1 200); [discriminate|].
    destruct (Js.parseInt (Js.with_default "1" (Transitions.page q)))
      as [p|]; [|discriminate].
    unfold Transitions.js_offset in Hreply.
    destruct (Sql.Int32 (Some ((p - 1) * l))) as [o|] eqn:Hbound;
      [|discriminate].
    apply Int32_inv in Hbound as [Ho _]. injection Ho as <-.
    unfold Transitions.page_query in Hreply.
    destruct ((p - 1) * l <? 0); [discriminate|].
    injection Hreply as <-.
    cbn [Transitions.data Transitions.pagination Transitions.total].
    split; [|split; [|split]].
    + intros Hin. apply Hnot. rewrite Hcounted.
      rewrite <- (map_map Transitions.session Transitions.s_session_id) in Hin.
      rewrite enrichWithTraits_sessions in Hin.
      apply in_map_iff in Hin as [s [E Hs]].
      apply limit_offset_In in Hs.
      assert (Hk : In (session_key s)
                     (map match_key
                        (Transitions.matching_sessions src tgt
                           (Transitions.sourceStep q) (Transitions.targetStep q)
                           (Transitions.user_paths env siteId inc
                              (Transitions.excludeEventNames q) events)))).
      { eapply Permutation_in; [apply ranked_sessions_keys|].
        now apply in_map. }
      apply in_map_iff in Hk as [m [Em Hm]].
      apply in_map_iff. exists m. split; [|assumption].
      unfold session_key, match_key in Em. congruence.
    + rewrite Hcounted. apply matching_sessions_NoDup.
    + exact Hnot.
    + rewrite count_query_length, Hcounted, length_map. reflexivity.
Qed.

(** *** The two queries of [getJourneyStepEventDetails] *)

Lemma Sorted_firstn {A} (R : A -> A -> Prop) (n : nat) (l : list A) :
  Sorted R l -> Sorted R (firstn n l).
Proof.
  revert l. induction n as [|n IH]; intros l H; [constructor|].
  destruct H as [|x l Hl Hx]; simpl; [constructor|].
  constructor; [now apply IH|].
  destruct Hx as [|y l Hxy]; [destruct n; constructor|].
  destruct n; simpl; constructor. assumption.
Qed.

Lemma StronglySorted_firstn {A} (R : A -> A -> Prop) (n : nat) (l : list A) :
  StronglySorted R l -> StronglySorted R (firstn n l).
Proof.
  revert l. induction n as [|n IH]; intros l H; [constructor|].
  destruct H as [|x l Hl Hx]; simpl; constructor; [now apply IH|].
  rewrite Forall_forall in *. intros y Hy. apply Hx. eapply In_firstn, Hy.
Qed.

Lemma StronglySorted_map {A B} (f : A -> B) (R : A -> A -> Prop)
    (R' : B -> B -> Prop) (l : list A) :
  (forall a b, R a b -> R' (f a) (f b)) ->
  StronglySorted R l -> StronglySorted R' (map f l).
Proof.
  intros HR. induction 1 as [|x l Hl IH Hx]; simpl; constructor; [assumption|].
  rewrite Forall_forall in *. intros y Hy.
  apply in_map_iff in Hy as [a [<- Ha]]. auto.
Qed.




Lemma kv_eqb_eq (a b : string * string) : StepDetails.kv_eqb a b = true <-> a = b.
Proof.
  unfold StepDetails.kv_eqb. destruct a, b. simpl.
  rewrite andb_true_iff, !String.eqb_eq. split.
  - intros [-> ->]. reflexivity.
  - intros [= -> ->]. auto.
Qed.

Lemma key_values_without_props (e : Event) :
  StepDetails.has_props e = false -> StepDetails.key_values e = [].
Proof.
  unfold StepDetails.has_props, StepDetails.key_values.
  destruct (props e) as [[|kv kvs]|]; [reflexivity | discriminate | reflexivity].
Qed.

(** Only the events with a non-empty bag bring pairs: the filter on
    [props] changes nothing in the pairs that are counted. *)
Lemma key_values_with_props (l : list Event) :
  flat_map StepDetails.key_values (StepDetails.events_with_props l) =
  flat_map StepDetails.key_values l.
Proof.
  unfold StepDetails.events_with_props.
  induction l as [|e l IH]; simpl; [reflexivity|].
  destruct (StepDetails.has_props e) eqn:E; simpl; rewrite IH; [reflexivity|].
  now rewrite (key_values_without_props e E).
Qed.






Lemma number_from_In (k : Z) (evs : list Event) (r : StepDetails.Numbered) :
  In r (StepDetails.number_from k evs) <->
  exists i : nat,
    nth_error evs i = Some (StepDetails.ne_event r)
    /\ r = StepDetails.mkNumbered (StepDetails.ne_event r)
             (StepDetails.step_label (StepDetails.ne_event r))
             (k + Z.of_nat i).
Proof.
  revert k. induction evs as [|e evs IH]; intros k; simpl.
  - split; [intros [] | intros [[|i] [H _]]; discriminate H].
  - rewrite IH. split.
    + intros [<-|[i [Hn Hr]]].
      * exists 0%nat. simpl. split; [reflexivity|]. f_equal. lia.
      * exists (S i). split; [exact Hn|]. rewrite Hr at 1. simpl. f_equal. lia.
    + intros [[|i] [Hn Hr]].
      * left. simpl in Hn. injection Hn as Hn. rewrite Hr, <- Hn. f_equal. lia.
      * right. exists i. split; [exact Hn|]. rewrite Hr at 1. f_equal. lia.
Qed.

Lemma numbered_session_In (env : Env) (siteId : Z) (table : list Event)
    (sid : string) (e : Event) :
  In e (numbered_session env siteId table sid) <->
  In e table /\ session_id e = sid /\ base_predicate env siteId e = true
  /\ type_clause true e = true.
Proof.
  unfold numbered_session.
  rewrite order_by_In, !filter_In, andb_true_iff, String.eqb_eq. tauto.
Qed.

Lemma numbered_events_In (env : Env) (siteId : Z) (table : list Event)
    (r : StepDetails.Numbered) :
  In r (StepDetails.numbered_events env siteId table) <->
  exists i : nat,
    nth_error
      (numbered_session env siteId table (session_id (StepDetails.ne_event r))) i
    = Some (StepDetails.ne_event r)
    /\ r = StepDetails.mkNumbered (StepDetails.ne_event r)
             (StepDetails.step_label (StepDetails.ne_event r))
             (1 + Z.of_nat i).
Proof.
  unfold StepDetails.numbered_events. rewrite in_flat_map. split.
  - intros [sid [Hsid Hr]]. apply number_from_In in Hr as [i [Hn Hr]].
    exists i. split; [|exact Hr].
    assert (Hin := nth_error_In _ _ Hn).
    apply order_by_In, filter_In in Hin as [_ Hs]. apply String.eqb_eq in Hs.
    rewrite Hs. exact Hn.
  - intros [i [Hn Hr]].
    exists (session_id (StepDetails.ne_event r)). split.
    + apply distinct_In; [apply String.eqb_eq|]. apply in_map.
      assert (Hin := nth_error_In _ _ Hn).
      apply numbered_session_In in Hin as (Hin & _ & Hb & Ht).
      apply filter_In. split; [assumption|]. now rewrite Hb, Ht.
    + apply number_from_In. exists i. split; assumption.
Qed.

Lemma number_from_lower (k : Z) (evs : list Event) (r : StepDetails.Numbered) :
  In r (StepDetails.number_from k evs) -> k <= StepDetails.step_number r.
Proof.
  intros H. apply number_from_In in H as [i [_ Hr]]. rewrite Hr. simpl. lia.
Qed.

Lemma filter_none_In {A} (f : A -> bool) (l : list A) :
  (forall x, In x l -> f x = false) -> filter f l = [].
Proof.
  induction l as [|x l IH]; simpl; intros H; [reflexivity|].
  rewrite (H x (or_introl eq_refl)). apply IH. intros y Hy. apply H. now right.
Qed.

Lemma number_from_one (p : StepDetails.Numbered -> bool) (n k : Z)
    (evs : list Event) :
  (List.length
     (filter (fun r => (p r && (StepDetails.step_number r =? n)%Z)%bool)
        (StepDetails.number_from k evs)) <= 1)%nat.
Proof.
  revert k. induction evs as [|e evs IH]; intros k; simpl; [lia|].
  destruct (Z.eqb_spec k n) as [->|N].
  - rewrite (filter_none_In _ (StepDetails.number_from (n + 1) evs)).
    + destruct (p _); simpl; lia.
    + intros r Hr. apply number_from_lower in Hr.
      destruct (Z.eqb_spec (StepDetails.step_number r) n); [lia|].
      apply andb_false_r.
  - rewrite andb_false_r. apply IH.
Qed.

Lemma numbered_rows_session (env : Env) (siteId : Z) (table : list Event)
    (sid : string) (r : StepDetails.Numbered) :
  In r (StepDetails.number_from 1
          (Sql.order_by StepDetails.time_leb
             (filter (fun e => String.eqb (session_id e) sid)
                (filter (fun e => (base_predicate env siteId e
                                   && type_clause true e)%bool) table)))) ->
  session_id (StepDetails.ne_event r) = sid.
Proof.
  intros H. apply number_from_In in H as [i [Hn _]].
  apply nth_error_In, order_by_In, filter_In in Hn as [_ Hs].
  now apply String.eqb_eq.
Qed.

Lemma one_row_per_session (f : string -> list StepDetails.Numbered)
    (keep : StepDetails.Numbered -> bool) (sids : list string) :
  NoDup sids ->
  (forall sid r, In r (f sid) -> session_id (StepDetails.ne_event r) = sid) ->
  (forall sid, (List.length (filter keep (f sid)) <= 1)%nat) ->
  NoDup (map (fun r => session_id (StepDetails.ne_event r))
           (filter keep (flat_map f sids))).
Proof.
  intros Hsids Hsid Hone.
  induction Hsids as [|sid sids Hnew Hsids IH]; simpl; [constructor|].
  rewrite filter_app, map_app.
  specialize (Hone sid).
  destruct (filter keep (f sid)) as [|r [|r' rest]] eqn:E; simpl in *;
    [exact IH | | lia].
  constructor; [|exact IH].
  intros Hin. apply in_map_iff in Hin as [r2 [E2 Hr2]].
  apply filter_In in Hr2 as [Hr2 _]. apply in_flat_map in Hr2 as [sid2 [Hs2 Hr2]].
  apply Hsid in Hr2.
  assert (Hr : In r (filter keep (f sid))) by (rewrite E; now left).
  apply filter_In in Hr as [Hr _]. apply Hsid in Hr.
  apply Hnew. congruence.
Qed.

(** *** getJourneyStepEventDetails: the retained events *)

Lemma retained_at_position (env : Env) (siteId : Z) (label : string)
    (stepIndex : option string) (table : list Event) (n : Z) :
  supplied_step stepIndex = Some n -> 0 <= n ->
  forall e,
    In e (StepDetails.target_step_events label
            (StepDetails.targetStepPosition stepIndex)
            (StepDetails.numbered_events env siteId table)) <->
    StepDetails.step_label e = label
    /\ nth_error (numbered_session env siteId table (session_id e))
         (Z.to_nat n) = Some e.
Proof.
  intros Hn Hn0.
  assert (Hpos : StepDetails.targetStepPosition stepIndex = Some (Some (n + 1))).
  { unfold supplied_step in Hn. unfold StepDetails.targetStepPosition.
    destruct stepIndex as [s|]; [|discriminate].
    destruct (Js.truthy s); [|discriminate]. now rewrite Hn. }
  unfold StepDetails.target_step_events. rewrite Hpos.
  intros e. rewrite in_map_iff. split.
  - intros [r [<- Hr]]. apply filter_In in Hr as [Hr Hw].
    unfold StepDetails.target_step_where in Hw.
    apply andb_true_iff in Hw as [Hl Hs].
    apply String.eqb_eq in Hl. apply Z.eqb_eq in Hs.
    apply numbered_events_In in Hr as [i [Hi Hr]].
    assert (Hnum : StepDetails.step_number r = 1 + Z.of_nat i)
      by (rewrite Hr; reflexivity).
    assert (Hlab : StepDetails.ne_step_label r =
                   StepDetails.step_label (StepDetails.ne_event r))
      by (rewrite Hr; reflexivity).
    split; [congruence|].
    assert (Ei : Z.of_nat i = n) by lia.
    rewrite <- Ei, Nat2Z.id. exact Hi.
  - intros [Hl Hi].
    exists (StepDetails.mkNumbered e (StepDetails.step_label e) (n + 1)).
    split; [reflexivity|]. apply filter_In. split.
    + apply numbered_events_In. exists (Z.to_nat n).
      cbn [StepDetails.ne_event].
      split; [exact Hi|]. f_equal. rewrite Z2Nat.id by lia. lia.
    + unfold StepDetails.target_step_where. simpl.
      rewrite Hl, String.eqb_refl, Z.eqb_refl. reflexivity.
Qed.

Lemma retained_one_per_session (env : Env) (siteId : Z) (label : string)
    (table : list Event) (position : Z) :
  NoDup (map session_id
           (StepDetails.target_step_events label (Some (Some position))
              (StepDetails.numbered_events env siteId table))).
Proof.
  unfold StepDetails.target_step_events.
  rewrite map_map. unfold StepDetails.numbered_events.
  apply one_row_per_session.
  - apply distinct_NoDup, String.eqb_eq.
  - intros sid r. apply numbered_rows_session.
  - intros sid. apply number_from_one.
Qed.

Lemma retained_without_position (env : Env) (siteId : Z) (label : string)
    (stepIndex : option string) (table : list Event) :
  supplied_step stepIndex = None -> numeric_step stepIndex = true ->
  forall e,
    In e (StepDetails.target_step_events label
            (StepDetails.targetStepPosition stepIndex)
            (StepDetails.numbered_events env siteId table)) <->
    StepDetails.step_label e = label /\ In e table
    /\ base_predicate env siteId e = true /\ type_clause true e = true.
Proof.
  intros Hnone Hnum.
  assert (Hpos : StepDetails.targetStepPosition stepIndex = None).
  { unfold supplied_step in Hnone. unfold numeric_step in Hnum.
    unfold StepDetails.targetStepPosition.
    destruct stepIndex as [s|]; [|reflexivity].
    destruct (Js.truthy s); [|reflexivity].
    rewrite Hnone in Hnum. discriminate Hnum. }
  unfold StepDetails.target_step_events. rewrite Hpos.
  intros e. rewrite in_map_iff. split.
  - intros [r [<- Hr]]. apply filter_In in Hr as [Hr Hw].
    unfold StepDetails.target_step_where in Hw. rewrite andb_true_r in Hw.
    apply String.eqb_eq in Hw.
    apply numbered_events_In in Hr as [i [Hi Hr]].
    assert (Hlab : StepDetails.ne_step_label r =
                   StepDetails.step_label (StepDetails.ne_event r))
      by (rewrite Hr; reflexivity).
    split; [congruence|].
    apply nth_error_In, numbered_session_In in Hi as (H1 & _ & H2 & H3).
    auto.
  - intros (Hl & Hin & Hb & Ht).
    assert (He : In e (numbered_session env siteId table (session_id e)))
      by (apply numbered_session_In; auto).
    apply In_nth_error in He as [i Hi].
    exists (StepDetails.mkNumbered e (StepDetails.step_label e)
              (1 + Z.of_nat i)).
    split; [reflexivity|]. apply filter_In. split.
    + apply numbered_events_In. exists i. cbn [StepDetails.ne_event].
      split; [exact Hi | reflexivity].
    + unfold StepDetails.target_step_where. simpl.
      rewrite Hl, String.eqb_refl. reflexivity.
Qed.

(** *** getJourneyStepEventDetails: grouping into a plain object *)
















(* ================================================================== *)
(** ** Where the code departs from the documented behaviour *)
(* ================================================================== *)

(** The label of [getJourneyTransitionSessions] and the label of
    [getJourneyStepEventDetails] are the same function. *)
Lemma transition_detail_labels_agree (e : Event) :
  Transitions.stepLabelCase e = StepDetails.step_label e.
Proof. reflexivity. Qed.

(** On interaction events the three labels agree. *)
Lemma interaction_labels_agree (e : Event) :
  String.eqb (type e) "pageview" = false ->
  is_interaction (type e) = true ->
  Journeys.step_label e = event_label e
  /\ Transitions.stepLabelCase e = event_label e
  /\ StepDetails.step_label e = event_label e.
Proof.
  intros Hp Hi.
  unfold Journeys.step_label, Transitions.stepLabelCase, StepDetails.step_label.
  now rewrite Hp, Hi.
Qed.

(** C1.  The three step labels are not the same function: on the
    pageview of [/asset/draft/123], [getJourneys] gives [/asset] where
    the two other queries give [/asset/draft]; on the pageview of
    [/blog/post-1], [getJourneys] gives [/blog] where the two others give
    the whole path. *)
Theorem step_label_divergence :
  let draft := Sample.pageview "s" 1 "/asset/draft/123" in
  let post := Sample.pageview "s" 1 "/blog/post-1" in
  Journeys.step_label draft = "/asset"
  /\ Transitions.stepLabelCase draft = "/asset/draft"
  /\ StepDetails.step_label draft = "/asset/draft"
  /\ Journeys.step_label post = "/blog"
  /\ Transitions.stepLabelCase post = "/blog/post-1"
  /\ StepDetails.step_label post = "/blog/post-1"
  /\ ~ (forall e, Journeys.step_label e = Transitions.stepLabelCase e).
Proof.
  repeat split; try reflexivity.
  intros H. specialize (H (Sample.pageview "s" 1 "/blog/post-1")).
  discriminate H.
Qed.

(** C2.  In a session labelled /a, /a, /b, /c at times 10, 20, 30, 40,
    the source /b first occurs at time 30 and at index 2 of the collapsed
    path; the transition timestamp returned is the second entry of the
    uncollapsed timestamps, 20. *)
Theorem transition_timestamp_misaligned :
  let q := Sample.transition_query "/b" "/c" None None in
  Transitions.user_paths Sample.env 1 true [] Sample.reload_session =
    [mkUserPath "s1" ["/a"; "/b"; "/c"] [10; 20; 30; 40]]
  /\ (exists body,
        Transitions.getJourneyTransitionSessions Sample.env 1 q
          Sample.reload_session = Sent body
        /\ map (fun s => Transitions.s_transition_timestamp (Transitions.session s))
             (Transitions.data body) = [20])
  /\ first_occurrence_timestamp Transitions.stepLabelCase "/b"
       (session_events Sample.env 1 true [] Sample.reload_session "s1") = Some 30.
Proof.
  split; [reflexivity|]. split; [|reflexivity].
  eexists. split; reflexivity.
Qed.

(** C5.  A [page] that is not a number, or is 0, is not refused with a
    400: with an accepted [limit] the request goes on to the page query,
    whose offset is then [NaN] or negative, and the reply is the 500 of
    the catch block.  A [limit] that is not a number is refused with a
    400. *)
Theorem page_not_validated (env : Env) (siteId : Z) (events : list Event) :
  Transitions.getJourneyTransitionSessions env siteId
    (Sample.transition_query "/a" "/b" (Some "50") (Some "abc")) events = Status500
  /\ Transitions.getJourneyTransitionSessions env siteId
       (Sample.transition_query "/a" "/b" (Some "50") (Some "0")) events = Status500
  /\ Transitions.getJourneyTransitionSessions env siteId
       (Sample.transition_query "/a" "/b" (Some "abc") (Some "1")) events =
     Status400 "limit must be between 1 and 200".
Proof. repeat split. Qed.

(** When no two consecutive events of the session carry the same label,
    the collapsed path and the timestamps are aligned, and the
    transition timestamp is that of the source's first occurrence. *)
Lemma transition_timestamp_without_repeats (label : Event -> string)
    (src : string) (session : list Event) :
  adjacent_distinct (map label session) = true ->
  0 < Sql.arrayIndexOf (Sql.arrayCompact (map label session)) src ->
  Some (Sql.arrayElement 0 (map timestamp session)
          (Sql.arrayIndexOf (Sql.arrayCompact (map label session)) src)) =
  first_occurrence_timestamp label src session.
Proof.
  intros Hd. rewrite (arrayCompact_id _ Hd). clear Hd.
  unfold first_occurrence_timestamp.
  induction session as [|e session IH]; simpl; [lia|].
  destruct (String.eqb (label e) src) eqn:E; [reflexivity|].
  pose proof (arrayIndexOf_range (map label session) src) as R.
  destruct (Sql.arrayIndexOf (map label session) src =? 0) eqn:Z0; [lia|].
  apply Z.eqb_neq in Z0. intros _.
  rewrite <- IH by lia.
  unfold Sql.arrayElement.
  destruct (Z.ltb_spec 0 (Sql.arrayIndexOf (map label session) src + 1)); [|lia].
  destruct (Z.ltb_spec 0 (Sql.arrayIndexOf (map label session) src)); [|lia].
  replace (Sql.arrayIndexOf (map label session) src + 1 - 1)
    with (Z.succ (Sql.arrayIndexOf (map label session) src - 1)) by lia.
  rewrite Z2Nat.inj_succ by lia. reflexivity.
Qed.

(* ================================================================== *)
(** ** The statements at sample data *)
(* ================================================================== *)

Lemma transition_retained_iff_witness :
  numeric_step (Some "0") = true
  /\ numeric_step (Some "1") = true
  /\ In "s1"
       (map Transitions.ms_session_id
          (Transitions.matching_sessions "/a" "/b" (Some "0") (Some "1")
             (Transitions.user_paths Sample.env 1 true [] Sample.two_sessions))).
Proof.
  split; [reflexivity|]. split; [reflexivity|].
  pose proof (transition_retained_iff Sample.env 1 "/a" "/b" (Some "0") (Some "1")
                true [] Sample.two_sessions "s1" eq_refl eq_refl) as H.
  cbv zeta in H. destruct H as [H _]. apply H.
  repeat split; try (vm_compute; reflexivity);
    intros n E; vm_compute in E; injection E as <-; vm_compute; reflexivity.
Defined.

Lemma journey_percentage_witness :
  Journeys.getJourneys Sample.env 1 Sample.journeys_query Sample.two_sessions =
    Sent [Journeys.mkJourney ["/a"; "/b"] 1 (100 # 2)]
  /\ base_sessions Sample.env 1 Sample.two_sessions = ["s1"; "s2"]
  /\ exists js,
       Journeys.getJourneys Sample.env 1 Sample.journeys_query
         Sample.two_sessions = Sent js
       /\ forall j, In j js ->
            0 < Journeys.count j <= 2
            /\ (Journeys.percentage j
                == 100 * inject_Z (Journeys.count j) / inject_Z 2)%Q.
Proof.
  split; [reflexivity|]. split; [reflexivity|].
  assert (Hs : 2 <= 3 <= 10) by lia.
  assert (Hl : 1 <= 100 <= 500) by lia.
  assert (Hf : Journeys.stepFilters Sample.journeys_query
               <> Journeys.MalformedStepFilters) by discriminate.
  destruct (journey_percentage Sample.env 1 Sample.journeys_query
              Sample.two_sessions 3 100 (fun _ => true)
              eq_refl Hs eq_refl Hl Hf eq_refl)
    as [_ [_ H]].
  exact H.
Defined.

Lemma journey_path_length_witness :
  exists js,
    Journeys.getJourneys Sample.env 1 Sample.journeys_query
      Sample.runs_session = Sent js
    /\ forall j, In j js ->
         2 <= Z.of_nat (List.length (Journeys.path j)) <= 3.
Proof.
  assert (Hs : 2 <= 3 <= 10) by lia.
  assert (Hl : 1 <= 100 <= 500) by lia.
  assert (Hf : Journeys.stepFilters Sample.journeys_query
               <> Journeys.MalformedStepFilters) by discriminate.
  destruct (journey_path_length Sample.env 1 Sample.journeys_query
              Sample.runs_session 3 100 (fun _ => true)
              eq_refl Hs eq_refl Hl Hf eq_refl)
    as [js [Hreply H]].
  exists js. split; [exact Hreply|].
  intros j Hj. exact (proj1 (H j Hj)).
Defined.

Lemma session_path_collapses_witness :
  collapsed_path "s1"
    (labelled_scan Transitions.stepLabelCase Sample.env 1 true []
       Sample.runs_session) = ["/a"; "/b"; "/c"]
  /\ collapsed_path "s1"
       (labelled_scan Journeys.step_label Sample.env 1 true []
          Sample.runs_session) = ["/a"; "/b"; "/c"].
Proof.
  split.
  - exact (proj1 (session_path_collapses Transitions.stepLabelCase Sample.env 1
                    true [] Sample.runs_session "s1"
                    [("/a", 1%nat); ("/b", 0%nat); ("/c", 2%nat)]
                    eq_refl eq_refl)).
  - exact (proj1 (session_path_collapses Journeys.step_label Sample.env 1
                    true [] Sample.runs_session "s1"
                    [("/a", 1%nat); ("/b", 0%nat); ("/c", 2%nat)]
                    eq_refl eq_refl)).
Defined.

Lemma single_step_session_excluded_witness :
  List.length
    (collapsed_path "s2"
       (labelled_scan Transitions.stepLabelCase Sample.env 1 true []
          Sample.two_sessions)) = 1%nat
  /\ (exists body,
        Transitions.getJourneyTransitionSessions Sample.env 1
          (Sample.transition_query "/a" "/b" None None) Sample.two_sessions
        = Sent body
        /\ ~ In "s2" (map (fun s => Transitions.s_session_id (Transitions.session s))
                        (Transitions.data body))
        /\ Transitions.total (Transitions.pagination body) = 1)
  /\ (exists js,
        Journeys.getJourneys Sample.env 1 Sample.journeys_query
          Sample.two_sessions = Sent js
        /\ forall j, In j js ->
             ~ In "s2"
                 (Journeys.group_sessions 3
                    (Journeys.user_paths Sample.env 1 true [] Sample.two_sessions)
                    (Journeys.path j))).
Proof.
  destruct (single_step_session_excluded Sample.env 1 Sample.two_sessions "s2")
    as [HJ HT].
  split; [reflexivity|]. split.
  - eexists. split; [reflexivity|].
    destruct (HT (Sample.transition_query "/a" "/b" None None) _ "/a" "/b"
                eq_refl eq_refl eq_refl eq_refl) as [H1 [_ [_ H2]]].
    split; [exact H1 | reflexivity].
  - eexists. split; [reflexivity|].
    intros j Hj.
    exact (proj2 (HJ Sample.journeys_query _ 3 eq_refl eq_refl eq_refl j Hj)).
Defined.



(* ================================================================== *)
(** ** Further properties of the handlers *)
(* ================================================================== *)

(** *** Lists, sums and groups *)

Lemma out_of_range_false (x : option Z) (lo hi : Z) :
  Js.out_of_range x lo hi = false <-> in_range x lo hi.
Proof.
  unfold Js.out_of_range, in_range. destruct x as [n|].
  - rewrite orb_false_iff, !Z.ltb_ge. split.
    + intros [H1 H2]. exists n. split; [reflexivity | lia].
    + intros [m [[= <-] H]]. lia.
  - split; [discriminate|]. intros [m [E _]]. discriminate E.
Qed.

Lemma out_of_range_true (x : option Z) (lo hi : Z) :
  Js.out_of_range x lo hi = true <-> ~ in_range x lo hi.
Proof.
  rewrite <- out_of_range_false. destruct (Js.out_of_range x lo hi); split;
    congruence.
Qed.

Lemma sum_of_app {A} (col : A -> Z) (l1 l2 : list A) :
  sum_of col (l1 ++ l2) = sum_of col l1 + sum_of col l2.
Proof.
  induction l1 as [|x l1 IH]; simpl; [reflexivity|]. rewrite IH. lia.
Qed.

Lemma sum_of_nonneg {A} (col : A -> Z) (l : list A) :
  (forall x, In x l -> 0 <= col x) -> 0 <= sum_of col l.
Proof.
  induction l as [|x l IH]; simpl; intros H; [lia|].
  specialize (H x (or_introl eq_refl)) as Hx.
  assert (0 <= sum_of col l) by (apply IH; intros y Hy; apply H; now right).
  lia.
Qed.

Lemma sum_of_perm {A} (col : A -> Z) (l1 l2 : list A) :
  Permutation l1 l2 -> sum_of col l1 = sum_of col l2.
Proof.
  induction 1; simpl; lia.
Qed.

Lemma sum_of_firstn {A} (col : A -> Z) (n : nat) (l : list A) :
  (forall x, In x l -> 0 <= col x) -> sum_of col (firstn n l) <= sum_of col l.
Proof.
  intros H. rewrite <- (firstn_skipn n l) at 2. rewrite sum_of_app.
  assert (0 <= sum_of col (skipn n l)).
  { apply sum_of_nonneg. intros x Hx. apply H. eapply In_skipn, Hx. }
  lia.
Qed.

Lemma sum_of_filter {A} (col : A -> Z) (p : A -> bool) (l : list A) :
  (forall x, In x l -> 0 <= col x) -> sum_of col (filter p l) <= sum_of col l.
Proof.
  induction l as [|x l IH]; simpl; intros H; [lia|].
  specialize (H x (or_introl eq_refl)) as Hx.
  assert (sum_of col (filter p l) <= sum_of col l)
    by (apply IH; intros y Hy; apply H; now right).
  destruct (p x); simpl; lia.
Qed.

Lemma sum_of_map {A B} (f : A -> B) (col : B -> Z) (l : list A) :
  sum_of col (map f l) = sum_of (fun a => col (f a)) l.
Proof.
  induction l as [|x l IH]; simpl; [reflexivity|]. now rewrite IH.
Qed.

Lemma NoDup_firstn {A} (n : nat) (l : list A) : NoDup l -> NoDup (firstn n l).
Proof.
  revert l. induction n as [|n IH]; intros l H; [constructor|].
  destruct H as [|x l Hx Hl]; simpl; constructor; [|now apply IH].
  intros Hin. apply Hx. eapply In_firstn, Hin.
Qed.

Section GroupBy.
Context {Row Key : Type} (key : Row -> Key) (grp : Key -> Row -> bool).
Hypothesis grp_key : forall k r, grp k r = true <-> key r = k.

Lemma group_disjoint (k : Key) (ks : list Key) (rows : list Row) :
  ~ In k ks ->
  (List.length (filter (grp k) rows)
   + List.length (filter (fun r => existsb (fun k' => grp k' r) ks) rows))%nat
  = List.length (filter (fun r => existsb (fun k' => grp k' r) (k :: ks)) rows).
Proof.
  intros Hk. induction rows as [|r rows IH]; simpl; [reflexivity|].
  destruct (grp k r) eqn:G; simpl.
  - assert (E : existsb (fun k' => grp k' r) ks = false).
    { apply not_true_is_false. intros H. apply existsb_exists in H as [k' [Hin Hg]].
      apply grp_key in G, Hg. apply Hk. congruence. }
    rewrite E. simpl in *. lia.
  - destruct (existsb (fun k' => grp k' r) ks); simpl in *; lia.
Qed.

Lemma group_sizes (ks : list Key) (rows : list Row) :
  NoDup ks ->
  sum_of (fun k => Z.of_nat (List.length (filter (grp k) rows))) ks =
  Z.of_nat (List.length
              (filter (fun r => existsb (fun k' => grp k' r) ks) rows)).
Proof.
  induction 1 as [|k ks Hk Hks IH]; simpl.
  - induction rows; simpl; auto.
  - change (fun r => (grp k r || existsb (fun k' => grp k' r) ks)%bool)
      with (fun r => existsb (fun k' => grp k' r) (k :: ks)).
    rewrite <- (group_disjoint k ks rows Hk), IH. lia.
Qed.

(** The groups of a [GROUP BY] cover the rows, each row once. *)
Lemma group_sizes_total (ks : list Key) (rows : list Row) :
  NoDup ks -> (forall r, In r rows -> In (key r) ks) ->
  sum_of (fun k => Z.of_nat (List.length (filter (grp k) rows))) ks =
  Z.of_nat (List.length rows).
Proof.
  intros Hks Hall. rewrite group_sizes by assumption. f_equal. f_equal.
  apply filter_all. intros r Hr. apply existsb_exists.
  exists (key r). split; [now apply Hall | now apply grp_key].
Qed.

End GroupBy.

(** *** getJourneys: validation, ranking and counts *)

(** What a sent reply of [getJourneys] is made of. *)
Lemma getJourneys_sent_inv (env : Env) (siteId : Z) (q : Journeys.Query)
    (events : list Event) (js : list Journeys.Journey) :
  Journeys.getJourneys env siteId q events = Sent js ->
  exists maxSteps journeyLimit having,
    Js.parseInt (Js.with_default "3" (Journeys.steps q)) = Some maxSteps
    /\ 2 <= maxSteps <= 10
    /\ Js.parseInt (Js.with_default "100" (Journeys.limit q)) = Some journeyLimit
    /\ 1 <= journeyLimit <= 500
    /\ Journeys.stepFilterConditions env
         (Journeys.parsedStepFilters (Journeys.stepFilters q)) = Some having
    /\ js = Journeys.journeys_of env siteId events
              (Journeys.journey_segments maxSteps journeyLimit having
                 (Journeys.user_paths env siteId
                    (parse_includeEvents
                       (Js.with_default "true" (Journeys.includeEvents q)))
                    (Journeys.excludeEventNames q) events)).
Proof.
  unfold Journeys.getJourneys. intros H.
  destruct (Js.out_of_range _ 2 10) eqn:Hs; [discriminate|].
  destruct (Js.out_of_range _ 1 500) eqn:Hl; [discriminate|].
  apply out_of_range_false in Hs as [maxSteps [Es Hs]].
  apply out_of_range_false in Hl as [journeyLimit [El Hl]].
  rewrite Es, El in H.
  exists maxSteps, journeyLimit.
  destruct (Journeys.stepFilters q) eqn:Esf; try discriminate;
    destruct (Journeys.stepFilterConditions env _) as [having|] eqn:Ec;
    try discriminate; injection H as <-; exists having; auto 10.
Qed.

(** X1.  [getJourneys] answers 400 exactly for a [steps] that is not a
    number of 2..10, a [limit] that is not a number of 1..500, or a
    [stepFilters] that does not parse; the checks are made in this order
    and before the table is read, each with its own message. *)
Theorem getJourneys_validation
    (env : Env) (siteId : Z) (q : Journeys.Query) (events : list Event) :
  let maxSteps := Js.parseInt (Js.with_default "3" (Journeys.steps q)) in
  let journeyLimit := Js.parseInt (Js.with_default "100" (Journeys.limit q)) in
  let reply := Journeys.getJourneys env siteId q events in
  (~ in_range maxSteps 2 10 ->
   reply = Status400 "Steps parameter must be a number between 2 and 10")
  /\ (in_range maxSteps 2 10 -> ~ in_range journeyLimit 1 500 ->
      reply = Status400 "Limit parameter must be a number between 1 and 500")
  /\ (in_range maxSteps 2 10 -> in_range journeyLimit 1 500 ->
      Journeys.stepFilters q = Journeys.MalformedStepFilters ->
      reply = Status400 "Invalid stepFilters format")
  /\ (in_range maxSteps 2 10 -> in_range journeyLimit 1 500 ->
      Journeys.stepFilters q <> Journeys.MalformedStepFilters ->
      forall msg, reply <> Status400 msg).
Proof.
  intros maxSteps journeyLimit reply. unfold reply, Journeys.getJourneys.
  fold maxSteps journeyLimit.
  split; [|split; [|split]].
  - intros H. apply out_of_range_true in H. now rewrite H.
  - intros H1 H2. apply out_of_range_false in H1. apply out_of_range_true in H2.
    now rewrite H1, H2.
  - intros H1 H2 H3. pose proof H1 as [n1 [E1 _]]. pose proof H2 as [n2 [E2 _]].
    apply out_of_range_false in H1, H2. rewrite H1, H2, H3.
    now destruct maxSteps, journeyLimit.
  - intros H1 H2 H3 msg. pose proof H1 as [n1 [E1 _]]. pose proof H2 as [n2 [E2 _]].
    apply out_of_range_false in H1, H2. rewrite H1, H2, E1, E2.
    destruct (Journeys.stepFilters q); try congruence;
      destruct (Journeys.stepFilterConditions env _); discriminate.
Qed.

Lemma journey_groups_keys (maxSteps : Z) (paths : list UserPath) :
  NoDup (map fst (Journeys.journey_groups maxSteps paths)).
Proof.
  unfold Journeys.journey_groups. rewrite map_map. simpl. rewrite map_id.
  apply distinct_NoDup, path_eqb_eq.
Qed.

Lemma journey_segments_paths (maxSteps journeyLimit : Z)
    (having : list string -> bool) (paths : list UserPath) :
  NoDup (map Journeys.journey
           (Journeys.journey_segments maxSteps journeyLimit having paths)).
Proof.
  unfold Journeys.journey_segments, Sql.limit_offset. simpl skipn.
  rewrite <- firstn_map. apply NoDup_firstn.
  eapply Permutation_NoDup;
    [apply Permutation_map, (order_by_perm Journeys.count_desc)|].
  apply NoDup_map_filter. rewrite map_map. simpl.
  apply journey_groups_keys.
Qed.

Lemma count_desc_trans (a b c : Journeys.Segment) :
  Journeys.count_desc a b = true -> Journeys.count_desc b c = true ->
  Journeys.count_desc a c = true.
Proof. unfold Journeys.count_desc. rewrite !Z.leb_le. lia. Qed.

(** X2.  The journeys of a sent reply are in order of count, largest
    first; there are at most [limit] of them; no two have the same path;
    and every count is at least 1. *)
Theorem journeys_ranked
    (env : Env) (siteId : Z) (q : Journeys.Query) (events : list Event)
    (js : list Journeys.Journey) (journeyLimit : Z) :
  Journeys.getJourneys env siteId q events = Sent js ->
  Js.parseInt (Js.with_default "100" (Journeys.limit q)) = Some journeyLimit ->
  StronglySorted larger_first js
  /\ Z.of_nat (List.length js) <= journeyLimit
  /\ NoDup (map Journeys.path js)
  /\ forall j, In j js -> 1 <= Journeys.count j.
Proof.
  intros Hreply Hl.
  destruct (getJourneys_sent_inv _ _ _ _ _ Hreply)
    as (maxSteps & l' & having & Es & Hs & El & Hlr & Ec & ->).
  rewrite Hl in El. injection El as <-.
  split; [|split; [|split]].
  - unfold Journeys.journeys_of, Journeys.journey_segments, Sql.limit_offset.
    simpl skipn.
    apply StronglySorted_map
      with (R := fun a b => Journeys.count_desc a b = true).
    + intros a b Hab. unfold larger_first. simpl.
      unfold Journeys.count_desc in Hab. now apply Z.leb_le.
    + apply StronglySorted_firstn.
      apply (order_by_strongly_sorted Journeys.count_desc count_desc_total
               count_desc_trans).
  - unfold Journeys.journeys_of, Journeys.journey_segments, Sql.limit_offset.
    rewrite length_map, length_firstn. lia.
  - unfold Journeys.journeys_of. rewrite map_map. simpl.
    apply journey_segments_paths.
  - intros j Hj. apply journeys_of_In in Hj as [[up [Hup Hp]] [Hc _]].
    rewrite Hc.
    assert (Hin : In (up_session_id up)
                    (Journeys.group_sessions maxSteps
                       (Journeys.user_paths env siteId
                          (parse_includeEvents
                             (Js.with_default "true" (Journeys.includeEvents q)))
                          (Journeys.excludeEventNames q) events)
                       (Journeys.path j))).
    { unfold Journeys.group_sessions. apply in_map, filter_In.
      split; [assumption|]. apply path_eqb_eq. now symmetry. }
    destruct (Journeys.group_sessions _ _ _); [destruct Hin | simpl; lia].
Qed.

Lemma sum_of_ext {A} (col col' : A -> Z) (l : list A) :
  (forall x, col x = col' x) -> sum_of col l = sum_of col' l.
Proof.
  intros H. induction l as [|x l IH]; simpl; [reflexivity|]. now rewrite H, IH.
Qed.

Lemma journey_groups_total (maxSteps : Z) (paths : list UserPath) :
  sum_of (fun g => Z.of_nat (List.length (snd g)))
    (Journeys.journey_groups maxSteps paths) =
  Z.of_nat (List.length paths).
Proof.
  unfold Journeys.journey_groups. rewrite sum_of_map.
  rewrite (sum_of_ext _
             (fun journey =>
                Z.of_nat
                  (List.length
                     (filter (fun up =>
                                Journeys.path_eqb
                                  (Sql.arraySlice1 (path_sequence up) maxSteps)
                                  journey)
                        paths)))).
  - apply (group_sizes_total
             (fun up => Sql.arraySlice1 (path_sequence up) maxSteps)
             (fun journey up =>
                Journeys.path_eqb
                  (Sql.arraySlice1 (path_sequence up) maxSteps) journey)
             (fun k r => path_eqb_eq _ k)).
    + apply distinct_NoDup, path_eqb_eq.
    + intros up Hup. apply distinct_In; [apply path_eqb_eq|].
      apply (in_map (fun up => Sql.arraySlice1 (path_sequence up) maxSteps)).
      exact Hup.
  - intros journey. simpl. unfold Journeys.group_sessions.
    now rewrite length_map.
Qed.

Lemma user_paths_bound (label : Event -> string) (env : Env) (siteId : Z)
    (inc : bool) (excl : list string) (events : list Event) :
  (List.length (user_paths_of (labelled_scan label env siteId inc excl events))
   <= List.length (base_sessions env siteId events))%nat.
Proof.
  rewrite <- (length_map up_session_id).
  apply NoDup_incl_length; [apply user_paths_of_NoDup|].
  intros sid Hsid. apply in_map_iff in Hsid as [up [<- Hup]].
  apply user_paths_of_session, labelled_scan_event in Hup
    as [e [He [Hs [Hb _]]]].
  apply base_sessions_In. now exists e.
Qed.

(** X3.  The counts of the returned journeys add up to at most the
    number of sessions whose path has two steps or more, itself at most
    the number of sessions of the percentage's denominator: a session is
    counted in one journey only.  When no step filter is given and fewer
    journeys come back than the limit allows, the counts add up to
    exactly the number of sessions with two steps or more. *)
Theorem journey_counts_total
    (env : Env) (siteId : Z) (q : Journeys.Query) (events : list Event)
    (js : list Journeys.Journey) (journeyLimit : Z) :
  Journeys.getJourneys env siteId q events = Sent js ->
  Js.parseInt (Js.with_default "100" (Journeys.limit q)) = Some journeyLimit ->
  let paths :=
    Journeys.user_paths env siteId
      (parse_includeEvents (Js.with_default "true" (Journeys.includeEvents q)))
      (Journeys.excludeEventNames q) events in
  sum_of Journeys.count js <= Z.of_nat (List.length paths)
  /\ Z.of_nat (List.length paths)
     <= Z.of_nat (List.length (base_sessions env siteId events))
  /\ (Journeys.stepFilters q = Journeys.NoStepFilters ->
      Z.of_nat (List.length js) < journeyLimit ->
      sum_of Journeys.count js = Z.of_nat (List.length paths)).
Proof.
  intros Hreply Hl paths.
  destruct (getJourneys_sent_inv _ _ _ _ _ Hreply)
    as (maxSteps & l' & having & Es & Hs & El & Hlr & Ec & ->).
  rewrite Hl in El. injection El as <-. fold paths. fold paths in Ec.
  set (segs := map (fun g => Journeys.mkSegment (fst g)
                               (Z.of_nat (List.length (snd g))))
                 (Journeys.journey_groups maxSteps paths)).
  assert (Hnonneg : forall l : list Journeys.Segment,
             (forall s, In s l -> In s segs) ->
             forall s, In s l -> 0 <= Journeys.sessions_count s).
  { intros l Hsub s Hs'. apply Hsub in Hs'. unfold segs in Hs'.
    apply in_map_iff in Hs' as [g [<- _]]. simpl. lia. }
  assert (Hsegs : sum_of Journeys.sessions_count segs =
                  Z.of_nat (List.length paths)).
  { unfold segs. rewrite sum_of_map. simpl. apply journey_groups_total. }
  assert (Hsum : sum_of Journeys.count
                   (Journeys.journeys_of env siteId events
                      (Journeys.journey_segments maxSteps journeyLimit having paths))
                 = sum_of Journeys.sessions_count
                     (Journeys.journey_segments maxSteps journeyLimit having paths)).
  { unfold Journeys.journeys_of. now rewrite sum_of_map. }
  split; [|split].
  - rewrite Hsum, <- Hsegs.
    unfold Journeys.journey_segments, Sql.limit_offset. simpl skipn. fold segs.
    etransitivity; [apply sum_of_firstn|].
    + apply Hnonneg. intros s Hs'. apply order_by_In in Hs'.
      now apply filter_In in Hs' as [Hs' _].
    + rewrite <- (sum_of_perm _ _ _ (order_by_perm Journeys.count_desc _)).
      apply sum_of_filter. now apply Hnonneg.
  - apply inj_le. apply user_paths_bound.
  - intros Hsf Hlen. rewrite Hsum, <- Hsegs.
    rewrite Hsf in Ec. simpl in Ec. injection Ec as <-.
    unfold Journeys.journeys_of in Hlen. rewrite length_map in Hlen.
    unfold Journeys.journey_segments, Sql.limit_offset in *. simpl skipn in *.
    fold segs in Hlen |- *.
    rewrite (filter_all (fun s : Journeys.Segment => true)) in * by reflexivity.
    rewrite length_firstn, order_by_length in Hlen.
    rewrite firstn_all2 by (rewrite order_by_length; lia).
    symmetry. apply sum_of_perm, order_by_perm.
Qed.

(** *** getJourneys: step filters and the origin of steps *)

Lemma stepFilterConditions_In (env : Env) (entries : list (string * string))
    (having : list string -> bool) (entry : string * string) :
  Journeys.stepFilterConditions env entries = Some having ->
  In entry entries ->
  exists c, Journeys.stepFilterCondition env entry = Some c
            /\ forall journey, having journey = true -> c journey = true.
Proof.
  revert having. induction entries as [|e entries IH]; intros having H Hin;
    [destruct Hin|].
  simpl in H.
  destruct (Journeys.stepFilterCondition env e) as [c|] eqn:Ec; [|discriminate].
  destruct (Journeys.stepFilterConditions env entries) as [cs|] eqn:Ecs;
    [|discriminate].
  injection H as <-. destruct Hin as [<-|Hin].
  - exists c. split; [assumption|]. intros journey Hj.
    now apply andb_true_iff in Hj as [Hj _].
  - destruct (IH cs eq_refl Hin) as [c' [Ec' Hc']]. exists c'.
    split; [assumption|]. intros journey Hj.
    apply andb_true_iff in Hj as [_ Hj]. now apply Hc'.
Qed.

(** X4.  A step filter whose key is the 0-based position [n >= 0] is
    applied to the step at that position of every returned journey: a
    pattern without [*] is the step itself, so that (for a non-empty
    pattern) journeys with fewer than [n + 1] steps are not returned; a
    pattern with [*] matches the step through the wildcard matcher. *)
Theorem step_filter_applied
    (env : Env) (siteId : Z) (q : Journeys.Query) (events : list Event)
    (js : list Journeys.Journey) (entries : list (string * string))
    (step pattern : string) (n : Z) :
  Journeys.getJourneys env siteId q events = Sent js ->
  Journeys.stepFilters q = Journeys.ParsedStepFilters entries ->
  In (step, pattern) entries ->
  Js.parseInt step = Some n ->
  0 <= n ->
  forall j, In j js ->
    (Journeys.includes_star pattern = false ->
     Sql.arrayElement "" (Journeys.path j) (n + 1) = pattern
     /\ (pattern <> "" ->
         nth_error (Journeys.path j) (Z.to_nat n) = Some pattern))
    /\ (Journeys.includes_star pattern = true ->
        pattern_match env pattern
          (Sql.arrayElement "" (Journeys.path j) (n + 1)) = true).
Proof.
  intros Hreply Hsf Hin Hn Hn0 j Hj.
  destruct (getJourneys_sent_inv _ _ _ _ _ Hreply)
    as (maxSteps & l' & having & Es & Hs & El & Hlr & Ec & ->).
  rewrite Hsf in Ec. simpl in Ec.
  destruct (stepFilterConditions_In _ _ _ _ Ec Hin) as [c [Hc Himp]].
  apply journeys_of_In in Hj as [_ [_ [Hh _]]].
  apply Himp in Hh.
  unfold Journeys.stepFilterCondition in Hc. rewrite Hn in Hc.
  destruct (Z.eqb_spec (n + 1) 0); [lia|].
  split.
  - intros Hstar. rewrite Hstar in Hc. injection Hc as <-.
    apply String.eqb_eq in Hh. split; [exact Hh|].
    intros Hne. unfold Sql.arrayElement in Hh.
    destruct (Z.ltb_spec 0 (n + 1)); [|lia].
    replace (n + 1 - 1) with n in Hh by lia.
    destruct (nth_error (Journeys.path j) (Z.to_nat n)) as [x|] eqn:E.
    + rewrite (nth_error_nth _ _ _ E) in Hh. now subst.
    + apply nth_error_None in E. rewrite nth_overflow in Hh by assumption.
      congruence.
  - intros Hstar. rewrite Hstar in Hc. injection Hc as <-. exact Hh.
Qed.

Lemma arrayCompact_In (x : string) (l : list string) :
  In x (Sql.arrayCompact l) -> In x l.
Proof.
  induction l as [|y l IH]; [auto|].
  rewrite arrayCompact_cons.
  destruct (Sql.arrayCompact l) as [|z t] eqn:E.
  - intros [<-|[]]. now left.
  - destruct (String.eqb y z).
    + intros H. right. now apply IH.
    + intros [<-|H]; [now left | right; now apply IH].
Qed.

Lemma labelled_scan_row (label : Event -> string) (env : Env) (siteId : Z)
    (inc : bool) (excl : list string) (events : list Event) (r : LabelledEvent) :
  In r (labelled_scan label env siteId inc excl events) ->
  exists e, In e events
            /\ r = mkLabelled (session_id e) (timestamp e) (label e)
            /\ base_predicate env siteId e = true
            /\ type_clause inc e = true
            /\ exclude_clause excl e = true.
Proof.
  unfold labelled_scan. intros Hr.
  apply order_by_In in Hr. apply in_map_iff in Hr as [e [<- He]].
  apply filter_In in He as [He Hk].
  rewrite !andb_true_iff in Hk. destruct Hk as [[Hb Ht] Hx].
  exists e. auto.
Qed.

(** Every entry of a path of [user_paths] is the label of an event of
    the session that passes the WHERE clause. *)
Lemma user_path_step (label : Event -> string) (env : Env) (siteId : Z)
    (inc : bool) (excl : list string) (events : list Event) (up : UserPath)
    (step : string) :
  In up (user_paths_of (labelled_scan label env siteId inc excl events)) ->
  In step (path_sequence up) ->
  exists e, In e events
            /\ session_id e = up_session_id up
            /\ step = label e
            /\ base_predicate env siteId e = true
            /\ type_clause inc e = true
            /\ exclude_clause excl e = true.
Proof.
  intros Hup Hstep. apply user_paths_of_In in Hup as [E _].
  rewrite E in Hstep. simpl in Hstep. unfold collapsed_path in Hstep.
  apply arrayCompact_In, in_map_iff in Hstep as [r [<- Hr]].
  unfold session_group in Hr. apply filter_In in Hr as [Hr Hsid].
  apply String.eqb_eq in Hsid.
  apply labelled_scan_row in Hr as (e & He & -> & Hb & Ht & Hx).
  exists e. simpl in Hsid. auto 10.
Qed.

(** X5.  Every step of every returned journey is the label of an event
    of the table that meets the site/time/filter predicate.  The event
    is a pageview, or, only when events are included, an interaction;
    and when names are excluded, an interaction that contributes a step
    has a name that is not one of them.  So with [includeEvents] other
    than [true] or [1] every step is the path label of a pageview. *)
Theorem journey_steps_origin
    (env : Env) (siteId : Z) (q : Journeys.Query) (events : list Event)
    (js : list Journeys.Journey) :
  Journeys.getJourneys env siteId q events = Sent js ->
  let inc := parse_includeEvents
               (Js.with_default "true" (Journeys.includeEvents q)) in
  forall j step, In j js -> In step (Journeys.path j) ->
    exists e,
      In e events
      /\ base_predicate env siteId e = true
      /\ step = Journeys.step_label e
      /\ (type e = "pageview" \/ (inc = true /\ is_interaction (type e) = true))
      /\ (Journeys.excludeEventNames q <> [] ->
          is_interaction (type e) = true ->
          exists name, event_name e = Some name
                       /\ ~ In name (Journeys.excludeEventNames q))
      /\ (inc = false ->
          type e = "pageview"
          /\ step = Journeys.pathname_label (pathname e)).
Proof.
  intros Hreply inc j step Hj Hstep.
  destruct (getJourneys_sent_inv _ _ _ _ _ Hreply)
    as (maxSteps & l' & having & Es & Hs & El & Hlr & Ec & ->).
  apply journeys_of_In in Hj as [[up [Hup Hp]] _].
  rewrite Hp in Hstep. unfold Sql.arraySlice1 in Hstep.
  apply In_firstn in Hstep. unfold Journeys.user_paths in Hup. fold inc in Hup.
  destruct (user_path_step _ _ _ _ _ _ _ _ Hup Hstep)
    as (e & He & _ & Hl & Hb & Ht & Hx).
  assert (Htype : type e = "pageview"
                  \/ (inc = true /\ is_interaction (type e) = true)).
  { unfold type_clause in Ht. apply orb_true_iff in Ht as [Ht|Ht].
    - left. now apply String.eqb_eq.
    - right. now apply andb_true_iff in Ht. }
  exists e.
  split; [assumption|]. split; [assumption|]. split; [assumption|].
  split; [assumption|]. split.
  - intros Hne Hi. unfold exclude_clause in Hx.
    destruct (Journeys.excludeEventNames q) as [|x xs] eqn:Ex; [congruence|].
    rewrite Hi in Hx. destruct (event_name e) as [name|]; [|discriminate].
    exists name. split; [reflexivity|]. intros Hin.
    apply negb_true_iff in Hx.
    assert (Hex : existsb (String.eqb name) (x :: xs) = true).
    { apply existsb_exists. exists name. split; [assumption|].
      apply String.eqb_refl. }
    congruence.
  - intros Hinc. destruct Htype as [H|[H _]]; [|congruence].
    split; [assumption|].
    rewrite Hl. unfold Journeys.step_label. rewrite H. reflexivity.
Qed.

(** *** The [excludeEventNames] parameter *)

Lemma splitByChar_comma_free (s : string) :
  comma_free s = true -> Sql.splitByChar "," s = [s].
Proof.
  induction s as [|c s IH]; simpl; [reflexivity|].
  rewrite andb_true_iff, negb_true_iff. intros [Hc Hs].
  rewrite Hc, (IH Hs). reflexivity.
Qed.

Lemma splitByChar_item (s rest : string) :
  comma_free s = true ->
  Sql.splitByChar "," (s ++ String "," rest) = s :: Sql.splitByChar "," rest.
Proof.
  induction s as [|c s IH]; simpl; [reflexivity|].
  rewrite andb_true_iff, negb_true_iff. intros [Hc Hs].
  rewrite Hc, (IH Hs). reflexivity.
Qed.

Lemma split_concat (item : string) (items : list string) :
  forallb comma_free (item :: items) = true ->
  ExcludeNames.split "," (String.concat "," (item :: items)) = item :: items.
Proof.
  unfold ExcludeNames.split. revert item.
  induction items as [|next items IH]; intros item H.
  - simpl in *. apply andb_true_iff in H as [H _].
    now apply splitByChar_comma_free.
  - change (String.concat "," (item :: next :: items))
      with (item ++ String "," (String.concat "," (next :: items))).
    simpl forallb in H. apply andb_true_iff in H as [Hi H].
    rewrite (splitByChar_item _ _ Hi). f_equal. now apply IH.
Qed.

(** X6.  A list of names without commas gives the same exclusions
    whether it is sent as a JSON array or joined with commas into a text
    that is read as comma-separated (one that is not itself JSON for an
    array). *)
Theorem exclude_names_forms_agree (items : list string) :
  forallb comma_free items = true ->
  ExcludeNames.excludedEventNames
    (ExcludeNames.OtherText (String.concat "," items)) =
  ExcludeNames.excludedEventNames (ExcludeNames.JsonArray items).
Proof.
  intros H. destruct items as [|item items]; [reflexivity|].
  unfold ExcludeNames.excludedEventNames. now rewrite split_concat.
Qed.

Lemma skip_spaces_length (s : string) :
  (String.length (Js.skip_spaces s) <= String.length s)%nat.
Proof.
  induction s as [|c s IH]; simpl; [lia|].
  destruct (Js.is_space c); simpl; lia.
Qed.

Lemma skip_spaces_fixed (c : ascii) (s : string) :
  Js.skip_spaces (String c s) = String c s -> Js.is_space c = false.
Proof.
  simpl. destruct (Js.is_space c); [|reflexivity].
  intros H. pose proof (skip_spaces_length s) as L. rewrite H in L.
  simpl in L. lia.
Qed.

Lemma skip_spaces_idem (s : string) :
  Js.skip_spaces (Js.skip_spaces s) = Js.skip_spaces s.
Proof.
  induction s as [|c s IH]; simpl; [reflexivity|].
  destruct (Js.is_space c) eqn:E; [exact IH|]. simpl. now rewrite E.
Qed.

Lemma trim_end_idem (s : string) :
  ExcludeNames.trim_end (ExcludeNames.trim_end s) = ExcludeNames.trim_end s.
Proof.
  induction s as [|c s IH]; simpl; [reflexivity|].
  destruct (ExcludeNames.trim_end s) as [|d t] eqn:E.
  - destruct (Js.is_space c) eqn:Hc; simpl; [reflexivity|]. now rewrite Hc.
  - change (ExcludeNames.trim_end (String c (String d t)))
      with (match ExcludeNames.trim_end (String d t) with
            | EmptyString =>
                if Js.is_space c then EmptyString else String c EmptyString
            | String a u => String c (String a u)
            end).
    rewrite IH. reflexivity.
Qed.

Lemma skip_spaces_trim_end (s : string) :
  Js.skip_spaces s = s ->
  Js.skip_spaces (ExcludeNames.trim_end s) = ExcludeNames.trim_end s.
Proof.
  destruct s as [|c s]; [reflexivity|]. intros H.
  apply skip_spaces_fixed in H. simpl.
  destruct (ExcludeNames.trim_end s); rewrite ?H; simpl; rewrite ?H;
    reflexivity.
Qed.

Lemma trim_trimmed (s : string) : trimmed (ExcludeNames.trim s).
Proof.
  unfold trimmed, ExcludeNames.trim. split.
  - apply skip_spaces_trim_end, skip_spaces_idem.
  - apply trim_end_idem.
Qed.

Lemma trimmed_trim (s : string) : trimmed s -> ExcludeNames.trim s = s.
Proof. intros [H1 H2]. unfold ExcludeNames.trim. now rewrite H1. Qed.

Lemma normalise_names (names : list string) :
  Forall (fun name => name <> "" /\ trimmed name) (ExcludeNames.normalise names).
Proof.
  apply Forall_forall. intros name H. unfold ExcludeNames.normalise in H.
  apply filter_In in H as [H Ht]. apply in_map_iff in H as [s [<- _]].
  split; [|apply trim_trimmed].
  intros E. rewrite E in Ht. discriminate Ht.
Qed.

Lemma normalise_fixed (names : list string) :
  Forall (fun name => name <> "" /\ trimmed name) names ->
  ExcludeNames.normalise names = names.
Proof.
  unfold ExcludeNames.normalise.
  induction 1 as [|name names [Hne Ht] _ IH]; simpl; [reflexivity|].
  rewrite (trimmed_trim _ Ht).
  destruct name; [congruence|]. simpl. now rewrite IH.
Qed.

(** X7.  Whatever the form of the parameter, the excluded names are
    non-empty and carry no white space at either end, and sending them
    again as an array gives the same list. *)
Theorem excluded_names_normal (p : ExcludeNames.Param) :
  Forall (fun name => name <> "" /\ trimmed name)
    (ExcludeNames.excludedEventNames p)
  /\ ExcludeNames.excludedEventNames
       (ExcludeNames.JsonArray (ExcludeNames.excludedEventNames p)) =
     ExcludeNames.excludedEventNames p.
Proof.
  assert (H : Forall (fun name => name <> "" /\ trimmed name)
                (ExcludeNames.excludedEventNames p)).
  { destruct p; simpl; [constructor | apply normalise_names..]. }
  split; [exact H|]. simpl. now apply normalise_fixed.
Qed.

(** *** getJourneyTransitionSessions: validation, empty results, pages *)

Lemma transition_reply_sent (env : Env) (siteId : Z) (q : Transitions.Query)
    (events : list Event) (src tgt : string) (l p : Z) :
  Transitions.source q = Some src -> Js.truthy src = true ->
  Transitions.target q = Some tgt -> Js.truthy tgt = true ->
  Js.parseInt (Js.with_default "50" (Transitions.limit q)) = Some l ->
  1 <= l <= 200 ->
  Js.parseInt (Js.with_default "1" (Transitions.page q)) = Some p ->
  1 <= p ->
  (p - 1) * l <= 2147483647 ->
  let inc := parse_includeEvents
               (Js.with_default "true" (Transitions.includeEvents q)) in
  let total :=
    Transitions.count_query env siteId src tgt (Transitions.sourceStep q)
      (Transitions.targetStep q) inc (Transitions.excludeEventNames q) events in
  Transitions.getJourneyTransitionSessions env siteId q events =
  Sent (Transitions.mkBody
          (Transitions.enrichWithTraits env
             (Sql.limit_offset l ((p - 1) * l)
                (Transitions.ranked_sessions env siteId src tgt
                   (Transitions.sourceStep q) (Transitions.targetStep q) inc
                   (Transitions.excludeEventNames q) events)))
          (Transitions.mkPagination total (Some p) l (Js.ceil_div total l))).
Proof.
  intros Hsrc Hsrc' Htgt Htgt' Hl Hlr Hp Hpr Hfit inc total.
  unfold Transitions.getJourneyTransitionSessions.
  rewrite Hsrc, Htgt. simpl Js.truthy_opt. rewrite Hsrc', Htgt'. simpl negb.
  simpl orb. cbv iota. rewrite Hl, Hp.
  unfold Js.out_of_range.
  destruct (Z.ltb_spec l 1); [lia|]. destruct (Z.ltb_spec 200 l); [lia|].
  simpl orb. cbv iota.
  unfold Transitions.js_offset. rewrite Int32_fits by nia.
  unfold Transitions.page_query.
  destruct (Z.ltb_spec ((p - 1) * l) 0); [nia|]. reflexivity.
Qed.

Lemma transition_reply_inv (env : Env) (siteId : Z) (q : Transitions.Query)
    (events : list Event) (body : Transitions.Body) :
  Transitions.getJourneyTransitionSessions env siteId q events = Sent body ->
  exists src tgt l p,
    Transitions.source q = Some src /\ Js.truthy src = true
    /\ Transitions.target q = Some tgt /\ Js.truthy tgt = true
    /\ Js.parseInt (Js.with_default "50" (Transitions.limit q)) = Some l
    /\ 1 <= l <= 200
    /\ Js.parseInt (Js.with_default "1" (Transitions.page q)) = Some p
    /\ 1 <= p
    /\ (p - 1) * l <= 2147483647.
Proof.
  unfold Transitions.getJourneyTransitionSessions. intros H.
  destruct (Transitions.source q) as [src|] eqn:Es; [|discriminate].
  destruct (Transitions.target q) as [tgt|] eqn:Et;
    [|simpl in H; rewrite orb_true_r in H; discriminate].
  simpl Js.truthy_opt in H.
  destruct (Js.truthy src) eqn:Hs; [|discriminate].
  destruct (Js.truthy tgt) eqn:Ht; [|discriminate].
  simpl in H.
  destruct (Js.out_of_range _ 1 200) eqn:Hl; [discriminate|].
  apply out_of_range_false in Hl as [l [El Hl]]. rewrite El in H.
  destruct (Js.parseInt (Js.with_default "1" (Transitions.page q)))
    as [p|] eqn:Ep; [|discriminate].
  unfold Transitions.js_offset in H.
  destruct (Sql.Int32 (Some ((p - 1) * l))) as [o|] eqn:Hbound;
    [|discriminate].
  apply Int32_inv in Hbound as [Ho Hfit]. injection Ho as <-.
  unfold Transitions.page_query in H.
  destruct (Z.ltb_spec ((p - 1) * l) 0); [discriminate|].
  exists src, tgt, l, p. repeat split; try assumption; try lia; nia.
Qed.

(** X8.  [getJourneyTransitionSessions] answers 400 exactly when source
    or target is missing or empty, or when [limit] is not a number of
    1..200; source and target are checked first, and both answers are
    given before the table is read. *)
Theorem transition_validation
    (env : Env) (siteId : Z) (q : Transitions.Query) (events : list Event) :
  let limitNum := Js.parseInt (Js.with_default "50" (Transitions.limit q)) in
  let reply := Transitions.getJourneyTransitionSessions env siteId q events in
  (Js.truthy_opt (Transitions.source q) = false
   \/ Js.truthy_opt (Transitions.target q) = false ->
   reply = Status400 "source and target are required")
  /\ (Js.truthy_opt (Transitions.source q) = true ->
      Js.truthy_opt (Transitions.target q) = true ->
      ~ in_range limitNum 1 200 ->
      reply = Status400 "limit must be between 1 and 200")
  /\ (Js.truthy_opt (Transitions.source q) = true ->
      Js.truthy_opt (Transitions.target q) = true ->
      in_range limitNum 1 200 ->
      forall msg, reply <> Status400 msg).
Proof.
  intros limitNum reply. unfold reply, Transitions.getJourneyTransitionSessions.
  fold limitNum. split; [|split].
  - intros [H|H]; rewrite H; simpl; [reflexivity|].
    now rewrite orb_true_r.
  - intros Hs Ht Hl. rewrite Hs, Ht. simpl.
    apply out_of_range_true in Hl. now rewrite Hl.
  - intros Hs Ht Hl msg. rewrite Hs, Ht. simpl.
    pose proof Hl as [l [El _]]. apply out_of_range_false in Hl.
    rewrite Hl, El.
    destruct (Transitions.source q); [|discriminate].
    destruct (Transitions.target q); [|discriminate].
    destruct (Transitions.page_query _ _ _ _ _ _ _ _ _ _ _); discriminate.
Qed.

(** A transition that no path can hold. *)
Lemma transition_where_impossible (src tgt : string)
    (sourceStep targetStep : option string) (up : UserPath) :
  src = tgt
  \/ (exists ns nt, supplied_step sourceStep = Some ns
                    /\ supplied_step targetStep = Some nt /\ nt <= ns)
  \/ (exists ns, supplied_step sourceStep = Some ns /\ ns < 0)
  \/ (exists nt, supplied_step targetStep = Some nt /\ nt < 1) ->
  Transitions.transition_where src tgt sourceStep targetStep up = false.
Proof.
  intros H. apply not_true_is_false. intros Hw.
  unfold Transitions.transition_where in Hw.
  rewrite !andb_true_iff, !Z.ltb_lt in Hw.
  destruct Hw as [[[[H1 H2] H3] H4] H5].
  assert (Hstep : forall step index n,
             supplied_step step = Some n ->
             Transitions.step_clause step index = true -> index = n + 1).
  { intros step index n Hn Hc. unfold supplied_step in Hn.
    unfold Transitions.step_clause in Hc.
    destruct step as [s|]; [|discriminate].
    destruct (Js.truthy s); [|discriminate].
    rewrite Hn in Hc. now apply Z.eqb_eq. }
  destruct H as [->|[(ns & nt & Hs & Ht & Hle)|[(ns & Hs & Hneg)|(nt & Ht & Hneg)]]].
  - lia.
  - apply (Hstep _ _ _ Hs) in H4. apply (Hstep _ _ _ Ht) in H5. lia.
  - apply (Hstep _ _ _ Hs) in H4. lia.
  - apply (Hstep _ _ _ Ht) in H5. lia.
Qed.

Lemma filter_none {A} (f : A -> bool) (l : list A) :
  (forall x, f x = false) -> filter f l = [].
Proof.
  intros H. induction l as [|x l IH]; simpl; [reflexivity|]. now rewrite H.
Qed.

(** X9.  A request that passes the checks, with an offset [(p-1)*l]
    that fits the query's [Int32] parameter, and whose transition cannot
    occur is answered with an empty page and a total of 0, not with an
    error: source equal to target, a target position not after the
    source position, a negative source position, or a target position
    below 1 (the target is never the first step). *)
Theorem impossible_transition_empty
    (env : Env) (siteId : Z) (q : Transitions.Query) (events : list Event)
    (src tgt : string) (l p : Z) :
  Transitions.source q = Some src -> Js.truthy src = true ->
  Transitions.target q = Some tgt -> Js.truthy tgt = true ->
  Js.parseInt (Js.with_default "50" (Transitions.limit q)) = Some l ->
  1 <= l <= 200 ->
  Js.parseInt (Js.with_default "1" (Transitions.page q)) = Some p ->
  1 <= p ->
  (p - 1) * l <= 2147483647 ->
  src = tgt
  \/ (exists ns nt, supplied_step (Transitions.sourceStep q) = Some ns
                    /\ supplied_step (Transitions.targetStep q) = Some nt
                    /\ nt <= ns)
  \/ (exists ns, supplied_step (Transitions.sourceStep q) = Some ns /\ ns < 0)
  \/ (exists nt, supplied_step (Transitions.targetStep q) = Some nt /\ nt < 1) ->
  Transitions.getJourneyTransitionSessions env siteId q events =
  Sent (Transitions.mkBody [] (Transitions.mkPagination 0 (Some p) l 0)).
Proof.
  intros Hsrc Hsrc' Htgt Htgt' Hl Hlr Hp Hpr Hfit Himp.
  rewrite (transition_reply_sent env siteId q events src tgt l p) by assumption.
  assert (Hnone : forall paths,
             filter (Transitions.transition_where src tgt
                       (Transitions.sourceStep q) (Transitions.targetStep q))
               paths = []).
  { intros paths. apply filter_none. intros up.
    now apply transition_where_impossible. }
  unfold Transitions.count_query, Transitions.ranked_sessions,
    Transitions.matching_sessions.
  rewrite !Hnone. simpl.
  unfold Sql.limit_offset. rewrite skipn_nil, firstn_nil. simpl.
  unfold Js.ceil_div.
  change (Sql.count_distinct []) with 0.
  replace (0 + l - 1) with (l - 1) by lia.
  rewrite Z.div_small by lia. reflexivity.
Qed.

Lemma firstn_add_skipn {A} (a b : nat) (l : list A) :
  firstn (a + b) l = (firstn a l ++ firstn b (skipn a l))%list.
Proof.
  revert l. induction a as [|a IH]; intros l; [reflexivity|].
  destruct l as [|x l]; simpl; [now rewrite firstn_nil|]. now rewrite IH.
Qed.

(** X10.  On an unchanged table the pages fit together: for a limit
    [l >= 1], the rows of pages 1 to [totalPages], one after the other,
    are all the qualifying sessions in their ranking, each once. *)
Theorem transition_pages_tile
    (env : Env) (siteId : Z) (src tgt : string)
    (sourceStep targetStep : option string) (inc : bool) (excl : list string)
    (events : list Event) (l : Z) :
  1 <= l ->
  let total :=
    Transitions.count_query env siteId src tgt sourceStep targetStep inc excl
      events in
  let page (p : Z) :=
    match Transitions.page_query env siteId src tgt sourceStep targetStep
            inc excl l (Transitions.js_offset (Some p) (Some l)) events with
    | Some rows => rows
    | None => []
    end in
  pages_upto page (Z.to_nat (Js.ceil_div total l)) =
  Transitions.ranked_sessions env siteId src tgt sourceStep targetStep inc excl
    events.
Proof.
  intros Hl total page.
  set (ranked := Transitions.ranked_sessions env siteId src tgt sourceStep
                   targetStep inc excl events).
  assert (Hpage : forall k : nat,
             page (Z.of_nat (S k)) =
             firstn (Z.to_nat l) (skipn (k * Z.to_nat l) ranked)).
  { intros k. unfold page, Transitions.js_offset, Transitions.page_query.
    destruct (Z.ltb_spec ((Z.of_nat (S k) - 1) * l) 0); [nia|].
    unfold Sql.limit_offset. fold ranked. do 2 f_equal. nia. }
  assert (Hupto : forall n : nat,
             pages_upto page n = firstn (n * Z.to_nat l) ranked).
  { induction n as [|n IH]; [reflexivity|].
    change (pages_upto page (S n))
      with (pages_upto page n ++ page (Z.of_nat (S n)))%list.
    rewrite IH, Hpage, <- firstn_add_skipn. f_equal. lia. }
  rewrite Hupto. apply firstn_all2.
  assert (Htotal : total = Z.of_nat (List.length ranked)).
  { unfold total. rewrite count_query_length.
    unfold ranked.
    rewrite <- (length_map session_key
                  (Transitions.ranked_sessions env siteId src tgt sourceStep
                     targetStep inc excl events)),
            <- (length_map match_key).
    f_equal. symmetry. apply Permutation_length, ranked_sessions_keys. }
  pose proof (ceil_div_spec total l ltac:(lia) ltac:(lia)) as [_ Hc].
  assert (0 <= Js.ceil_div total l).
  { unfold Js.ceil_div. apply Z.div_pos; lia. }
  nia.
Qed.

(** *** getJourneyTransitionSessions: the rows of a page *)

Lemma ranked_session_inv (env : Env) (siteId : Z) (src tgt : string)
    (sourceStep targetStep : option string) (inc : bool) (excl : list string)
    (events : list Event) (s : Transitions.Session) :
  In s (Transitions.ranked_sessions env siteId src tgt sourceStep targetStep
          inc excl events) ->
  exists up joined,
    In up (Transitions.user_paths env siteId inc excl events)
    /\ Transitions.transition_where src tgt sourceStep targetStep up = true
    /\ joined = filter (fun e => (String.eqb (up_session_id up) (session_id e)
                                  && (site_id e =? siteId)
                                  && timeStatement env e)%bool) events
    /\ Transitions.s_session_id s = up_session_id up
    /\ Transitions.s_source_index s = Sql.arrayIndexOf (path_sequence up) src
    /\ Transitions.s_target_index s = Sql.arrayIndexOf (path_sequence up) tgt
    /\ Transitions.s_transition_timestamp s =
       Sql.arrayElement 0 (timestamps up)
         (Sql.arrayIndexOf (path_sequence up) src)
    /\ Transitions.session_start s = Transitions.argMin 0 timestamp joined
    /\ Transitions.session_end s = Transitions.argMax 0 timestamp joined.
Proof.
  unfold Transitions.ranked_sessions. intros H.
  apply order_by_In, in_flat_map in H as [m [Hm Hs]].
  unfold Transitions.matching_sessions in Hm.
  apply in_map_iff in Hm as [up [<- Hup]].
  apply filter_In in Hup as [Hup Hw].
  unfold Transitions.materialize in Hs. cbn [Transitions.ms_session_id] in Hs.
  exists up. eexists. split; [exact Hup|]. split; [exact Hw|].
  split; [reflexivity|].
  destruct (filter _ events) as [|e joined]; [destruct Hs|].
  destruct Hs as [<-|[]]. cbn. auto 10.
Qed.

Lemma argMin_le (rows : list Event) (e : Event) :
  In e rows -> Transitions.argMin 0 timestamp rows <= timestamp e.
Proof.
  unfold Transitions.argMin. destruct rows as [|b rows]; [intros []|].
  assert (H : forall l b0,
             timestamp (fold_left
                          (fun best x =>
                             if timestamp x <? timestamp best then x else best)
                          l b0) <= timestamp b0
             /\ forall x, In x l ->
                  timestamp (fold_left
                               (fun best x0 =>
                                  if timestamp x0 <? timestamp best then x0 else best)
                               l b0) <= timestamp x).
  { induction l as [|y l IH]; intros b0; simpl; [split; [lia | intros x []]|].
    destruct (IH (if timestamp y <? timestamp b0 then y else b0)) as [H1 H2].
    destruct (Z.ltb_spec (timestamp y) (timestamp b0)); split;
      try lia; intros x [<-|Hx]; try lia; now apply H2. }
  destruct (H rows b) as [H1 H2]. intros [<-|He]; [exact H1 | now apply H2].
Qed.

Lemma argMax_ge (rows : list Event) (e : Event) :
  In e rows -> timestamp e <= Transitions.argMax 0 timestamp rows.
Proof.
  unfold Transitions.argMax. destruct rows as [|b rows]; [intros []|].
  assert (H : forall l b0,
             timestamp b0 <=
             timestamp (fold_left
                          (fun best x =>
                             if timestamp best <? timestamp x then x else best)
                          l b0)
             /\ forall x, In x l ->
                  timestamp x <=
                  timestamp (fold_left
                               (fun best x0 =>
                                  if timestamp best <? timestamp x0 then x0 else best)
                               l b0)).
  { induction l as [|y l IH]; intros b0; simpl; [split; [lia | intros x []]|].
    destruct (IH (if timestamp b0 <? timestamp y then y else b0)) as [H1 H2].
    destruct (Z.ltb_spec (timestamp b0) (timestamp y)); split;
      try lia; intros x [<-|Hx]; try lia; now apply H2. }
  destruct (H rows b) as [H1 H2]. intros [<-|He]; [exact H1 | now apply H2].
Qed.

Lemma arrayCompact_length (l : list string) :
  (List.length (Sql.arrayCompact l) <= List.length l)%nat.
Proof.
  induction l as [|x l IH]; [simpl; lia|].
  rewrite arrayCompact_cons.
  destruct (Sql.arrayCompact l) as [|y t]; [simpl; lia|].
  destruct (String.eqb x y); simpl in *; lia.
Qed.

Lemma arrayIndexOf_cons (y : string) (l : list string) (x : string) :
  Sql.arrayIndexOf (y :: l) x =
  if String.eqb y x then 1
  else if Sql.arrayIndexOf l x =? 0 then 0 else Sql.arrayIndexOf l x + 1.
Proof. reflexivity. Qed.

(** Collapsing can only bring the first occurrence of a label forward. *)
Lemma arrayIndexOf_compact_le (l : list string) (x : string) :
  0 < Sql.arrayIndexOf (Sql.arrayCompact l) x ->
  Sql.arrayIndexOf (Sql.arrayCompact l) x <= Sql.arrayIndexOf l x.
Proof.
  induction l as [|y l IH]; [simpl; lia|].
  rewrite arrayCompact_cons, (arrayIndexOf_cons y l x).
  pose proof (arrayIndexOf_range l x) as R.
  destruct (Sql.arrayCompact l) as [|z t] eqn:E.
  - rewrite (arrayIndexOf_cons y [] x). simpl.
    destruct (String.eqb y x); lia.
  - pose proof (arrayIndexOf_range (z :: t) x) as Rc.
    destruct (String.eqb_spec y z) as [->|Nyz].
    + intros H. specialize (IH H).
      destruct (String.eqb z x) eqn:Ez.
      * rewrite (arrayIndexOf_cons z t x), Ez. lia.
      * destruct (Z.eqb_spec (Sql.arrayIndexOf l x) 0); lia.
    + rewrite (arrayIndexOf_cons y (z :: t) x).
      destruct (String.eqb y x); [lia|].
      destruct (Z.eqb_spec (Sql.arrayIndexOf (z :: t) x) 0); [lia|].
      intros _. assert (Hpos : 0 < Sql.arrayIndexOf (z :: t) x) by lia.
      specialize (IH Hpos).
      destruct (Z.eqb_spec (Sql.arrayIndexOf l x) 0); lia.
Qed.

Lemma first_occurrence_nth (label : Event -> string) (src : string)
    (session : list Event) :
  0 < Sql.arrayIndexOf (map label session) src ->
  first_occurrence_timestamp label src session =
  Some (nth (Z.to_nat (Sql.arrayIndexOf (map label session) src - 1))
          (map timestamp session) 0).
Proof.
  unfold first_occurrence_timestamp.
  induction session as [|e session IH]; simpl; [lia|].
  destruct (String.eqb (label e) src) eqn:E; [reflexivity|].
  pose proof (arrayIndexOf_range (map label session) src) as R.
  destruct (Sql.arrayIndexOf (map label session) src =? 0) eqn:Z0; [lia|].
  apply Z.eqb_neq in Z0. intros _. rewrite IH by lia.
  replace (Sql.arrayIndexOf (map label session) src + 1 - 1)
    with (Z.succ (Sql.arrayIndexOf (map label session) src - 1)) by lia.
  rewrite Z2Nat.inj_succ by lia. reflexivity.
Qed.

Lemma sorted_nth_le (l : list Z) (i j : nat) :
  StronglySorted Z.le l -> (i <= j < List.length l)%nat ->
  nth i l 0 <= nth j l 0.
Proof.
  intros H. revert i j. induction H as [|x l Hl IH Hx]; intros i j Hij;
    [simpl in Hij; lia|].
  destruct i as [|i], j as [|j]; simpl in *; try lia.
  - rewrite Forall_forall in Hx. apply Hx, nth_In. lia.
  - apply IH. lia.
Qed.

Lemma session_events_sorted (env : Env) (siteId : Z) (inc : bool)
    (excl : list string) (events : list Event) (sid : string) :
  StronglySorted Z.le
    (map timestamp (session_events env siteId inc excl events sid)).
Proof.
  unfold session_events.
  apply StronglySorted_map
    with (R := ordered_by (fun a b : Event => timestamp a <=? timestamp b)).
  - intros a b Hab. now apply Z.leb_le.
  - apply order_by_strongly_sorted.
    + intros a b. destruct (Z.leb_spec (timestamp a) (timestamp b));
        [now left|]. right. apply Z.leb_le. lia.
    + intros a b c. rewrite !Z.leb_le. lia.
Qed.

Lemma session_events_In (env : Env) (siteId : Z) (inc : bool)
    (excl : list string) (events : list Event) (sid : string) (e : Event) :
  In e (session_events env siteId inc excl events sid) ->
  In e events /\ session_id e = sid /\ base_predicate env siteId e = true.
Proof.
  unfold session_events. intros H. apply order_by_In, filter_In in H as [H K].
  rewrite !andb_true_iff in K. destruct K as [Hs [[Hb _] _]].
  apply String.eqb_eq in Hs. auto.
Qed.

(** The row of a session in [user_paths], by the session's events. *)
Lemma transition_user_path (env : Env) (siteId : Z) (inc : bool)
    (excl : list string) (events : list Event) (up : UserPath) :
  In up (Transitions.user_paths env siteId inc excl events) ->
  path_sequence up =
    Sql.arrayCompact
      (map Transitions.stepLabelCase
         (session_events env siteId inc excl events (up_session_id up)))
  /\ timestamps up =
     map timestamp (session_events env siteId inc excl events (up_session_id up)).
Proof.
  unfold Transitions.user_paths. intros H.
  apply user_paths_of_In in H as [E _]. rewrite E. cbn.
  unfold collapsed_path. rewrite session_group_scan, !map_map. split; reflexivity.
Qed.

(** X11.  For every row of a page, the transition timestamp is the
    timestamp of an event of the session: it lies between the session's
    start and end, and it is never later than the first occurrence of
    the source step (it is earlier when repeated steps were collapsed
    before the source). *)
Theorem transition_timestamp_bounds
    (env : Env) (siteId : Z) (q : Transitions.Query) (events : list Event)
    (body : Transitions.Body) (src : string) :
  Transitions.getJourneyTransitionSessions env siteId q events = Sent body ->
  Transitions.source q = Some src ->
  let inc := parse_includeEvents
               (Js.with_default "true" (Transitions.includeEvents q)) in
  forall s, In s (map Transitions.session (Transitions.data body)) ->
    Transitions.session_start s <= Transitions.s_transition_timestamp s
      <= Transitions.session_end s
    /\ exists t,
         first_occurrence_timestamp Transitions.stepLabelCase src
           (session_events env siteId inc (Transitions.excludeEventNames q)
              events (Transitions.s_session_id s)) = Some t
         /\ Transitions.s_transition_timestamp s <= t.
Proof.
  intros Hreply Hsrc inc s Hs.
  destruct (transition_reply_inv _ _ _ _ _ Hreply)
    as (src' & tgt & l & p & Es & Hts & Et & Htt & El & Hl & Ep & Hp & Hfit).
  rewrite Hsrc in Es. injection Es as <-.
  rewrite (transition_reply_sent env siteId q events src tgt l p) in Hreply
    by assumption.
  injection Hreply as <-. cbn [Transitions.data] in Hs.
  rewrite enrichWithTraits_sessions in Hs. apply limit_offset_In in Hs.
  apply ranked_session_inv in Hs
    as (up & joined & Hup & Hw & Hj & Eid & Esi & Eti & Ett & Estart & Eend).
  fold inc in Hup.
  destruct (transition_user_path _ _ _ _ _ _ Hup) as [Hpath Hts'].
  set (sess := session_events env siteId inc (Transitions.excludeEventNames q)
                 events (up_session_id up)) in *.
  set (labels := map Transitions.stepLabelCase sess) in *.
  unfold Transitions.transition_where in Hw.
  rewrite !andb_true_iff, !Z.ltb_lt in Hw. destruct Hw as [[[[Hpos _] _] _] _].
  rewrite Hpath in Hpos, Ett. rewrite Hts' in Ett.
  pose proof (arrayIndexOf_range (Sql.arrayCompact labels) src) as Rc.
  pose proof (arrayCompact_length labels) as Lc.
  pose proof (arrayIndexOf_compact_le labels src Hpos) as Hle.
  pose proof (arrayIndexOf_range labels src) as R.
  assert (Hlen : List.length labels = List.length sess)
    by (unfold labels; apply length_map).
  unfold Sql.arrayElement in Ett.
  destruct (Z.ltb_spec 0 (Sql.arrayIndexOf (Sql.arrayCompact labels) src));
    [|lia].
  set (i := Z.to_nat (Sql.arrayIndexOf (Sql.arrayCompact labels) src - 1)) in *.
  assert (Hi : (i < List.length sess)%nat) by (unfold i; lia).
  assert (Hin : exists e, In e sess /\ timestamp e = Transitions.s_transition_timestamp s).
  { exists (nth i sess (Sample.pageview "" 0 "")). split; [now apply nth_In|].
    rewrite Ett. change 0 with (timestamp (Sample.pageview "" 0 "")) at 2.
    now rewrite map_nth. }
  destruct Hin as [e [He Hte]].
  apply session_events_In in He as [He [Hsid Hb]].
  assert (Hjoined : In e joined).
  { rewrite Hj. apply filter_In. split; [assumption|].
    unfold base_predicate in Hb. rewrite !andb_true_iff in Hb.
    destruct Hb as [[Hb1 Hb2] _].
    rewrite Hsid, String.eqb_refl, Hb1, Hb2. reflexivity. }
  split.
  - rewrite Estart, Eend, <- Hte. split; [now apply argMin_le | now apply argMax_ge].
  - rewrite Eid. fold sess.
    rewrite (first_occurrence_nth Transitions.stepLabelCase src sess)
      by (fold labels; lia).
    eexists. split; [reflexivity|]. fold labels. rewrite Ett.
    apply sorted_nth_le; [apply session_events_sorted|].
    rewrite length_map. unfold i. lia.
Qed.

Lemma arrayIndexOf_first (arr : list string) (x : string) (i : nat) :
  nth_error arr i = Some x ->
  0 < Sql.arrayIndexOf arr x <= Z.of_nat i + 1.
Proof.
  revert i. induction arr as [|y arr IH]; intros i H; [now destruct i|].
  rewrite arrayIndexOf_cons.
  destruct (String.eqb_spec y x) as [->|N]; [lia|].
  destruct i as [|i]; simpl in H; [congruence|].
  specialize (IH i H).
  destruct (Z.eqb_spec (Sql.arrayIndexOf arr x) 0); lia.
Qed.

Lemma NoDup_skipn {A} (n : nat) (l : list A) : NoDup l -> NoDup (skipn n l).
Proof.
  revert l. induction n as [|n IH]; intros l H; [exact H|].
  destruct H as [|x l Hx Hl]; simpl; [constructor | now apply IH].
Qed.

Lemma ranked_sessions_ids (env : Env) (siteId : Z) (src tgt : string)
    (sourceStep targetStep : option string) (inc : bool) (excl : list string)
    (events : list Event) :
  NoDup (map Transitions.s_session_id
           (Transitions.ranked_sessions env siteId src tgt sourceStep
              targetStep inc excl events)).
Proof.
  eapply Permutation_NoDup.
  - symmetry.
    pose proof (Permutation_map fst
                  (ranked_sessions_keys env siteId src tgt sourceStep
                     targetStep inc excl events)) as P.
    rewrite !map_map in P. exact P.
  - apply matching_sessions_NoDup.
Qed.

(** X12.  The rows of a page are rows of distinct sessions.  In each,
    the two indices are the 1-based positions at which source and target
    first occur in the session's collapsed path: the source index is at
    least 1 and smaller than the target index, the path holds source and
    target at these positions, and holds neither of them earlier. *)
Theorem transition_row_positions
    (env : Env) (siteId : Z) (q : Transitions.Query) (events : list Event)
    (body : Transitions.Body) (src tgt : string) :
  Transitions.getJourneyTransitionSessions env siteId q events = Sent body ->
  Transitions.source q = Some src ->
  Transitions.target q = Some tgt ->
  let rows :=
    labelled_scan Transitions.stepLabelCase env siteId
      (parse_includeEvents (Js.with_default "true" (Transitions.includeEvents q)))
      (Transitions.excludeEventNames q) events in
  NoDup (map Transitions.s_session_id
           (map Transitions.session (Transitions.data body)))
  /\ forall s, In s (map Transitions.session (Transitions.data body)) ->
       let path := collapsed_path (Transitions.s_session_id s) rows in
       1 <= Transitions.s_source_index s < Transitions.s_target_index s
       /\ Transitions.s_target_index s <= Z.of_nat (List.length path)
       /\ nth_error path (Z.to_nat (Transitions.s_source_index s - 1)) = Some src
       /\ nth_error path (Z.to_nat (Transitions.s_target_index s - 1)) = Some tgt
       /\ (forall i, Z.of_nat i + 1 < Transitions.s_source_index s ->
                     nth_error path i <> Some src)
       /\ (forall i, Z.of_nat i + 1 < Transitions.s_target_index s ->
                     nth_error path i <> Some tgt).
Proof.
  intros Hreply Hsrc Htgt rows.
  destruct (transition_reply_inv _ _ _ _ _ Hreply)
    as (src' & tgt' & l & p & Es & Hts & Et & Htt & El & Hl & Ep & Hp & Hfit).
  rewrite Hsrc in Es. injection Es as <-.
  rewrite Htgt in Et. injection Et as <-.
  rewrite (transition_reply_sent env siteId q events src tgt l p) in Hreply
    by assumption.
  injection Hreply as <-. cbn [Transitions.data].
  rewrite enrichWithTraits_sessions. split.
  - unfold Sql.limit_offset. rewrite <- firstn_map, <- skipn_map.
    apply NoDup_firstn, NoDup_skipn, ranked_sessions_ids.
  - intros s Hs.
    set (path := collapsed_path (Transitions.s_session_id s) rows).
    apply limit_offset_In in Hs.
    apply ranked_session_inv in Hs
      as (up & joined & Hup & Hw & _ & Eid & Esi & Eti & _).
    unfold Transitions.user_paths in Hup. fold rows in Hup.
    apply user_paths_of_In in Hup as [Eup _].
    assert (Hpath : path_sequence up = path).
    { rewrite Eup. unfold path. now rewrite Eid. }
    rewrite Hpath in *.
    unfold Transitions.transition_where in Hw. rewrite Hpath in Hw.
    rewrite !andb_true_iff, !Z.ltb_lt in Hw.
    destruct Hw as [[[[H1 H2] H3] _] _].
    rewrite Esi, Eti.
    pose proof (arrayIndexOf_range path tgt).
    split; [lia|]. split; [lia|].
    split; [now apply arrayIndexOf_nth|].
    split; [now apply arrayIndexOf_nth|].
    split; intros i Hi E; apply arrayIndexOf_first in E; lia.
Qed.

(** *** getJourneyStepEventDetails: step numbers and histogram *)

(** X13.  With a numeric [stepIndex] [n >= 0], the events retained by
    [getJourneyStepEventDetails] are those that carry the label and are
    the [(n + 1)]-th event of their session, counting every pageview and
    interaction of the session in timestamp order (repeated steps are
    counted, they are not collapsed as in the journeys); so at most one
    event per session is retained.  Without [stepIndex], every event of
    the table with the label that passes the WHERE clause is retained. *)
Theorem step_index_selects
    (env : Env) (siteId : Z) (label : string) (stepIndex : option string)
    (table : list Event) :
  let retained :=
    StepDetails.target_step_events label
      (StepDetails.targetStepPosition stepIndex)
      (StepDetails.numbered_events env siteId table) in
  (forall n, supplied_step stepIndex = Some n -> 0 <= n ->
     (forall e,
        In e retained <->
        StepDetails.step_label e = label
        /\ nth_error (numbered_session env siteId table (session_id e))
             (Z.to_nat n) = Some e)
     /\ NoDup (map session_id retained))
  /\ (supplied_step stepIndex = None -> numeric_step stepIndex = true ->
      forall e,
        In e retained <->
        StepDetails.step_label e = label /\ In e table
        /\ base_predicate env siteId e = true /\ type_clause true e = true).
Proof.
  intros retained. split.
  - intros n Hn Hn0. split.
    + now apply retained_at_position.
    + assert (Hpos : StepDetails.targetStepPosition stepIndex =
                     Some (Some (n + 1))).
      { unfold supplied_step in Hn. unfold StepDetails.targetStepPosition.
        destruct stepIndex as [s|]; [|discriminate].
        destruct (Js.truthy s); [|discriminate]. now rewrite Hn. }
      unfold retained. rewrite Hpos. apply retained_one_per_session.
  - intros Hnone Hnum. now apply retained_without_position.
Qed.

Lemma drop_last_quote_app (s : string) :
  StepDetails.drop_last_quote (s ++ String StepDetails.dquote "") = s.
Proof.
  induction s as [|c s IH]; [reflexivity|].
  change (String c s ++ String StepDetails.dquote "")
    with (String c (s ++ String StepDetails.dquote "")).
  destruct s as [|d s]; [reflexivity|].
  change (String d s ++ String StepDetails.dquote "")
    with (String d (s ++ String StepDetails.dquote "")) in *.
  change (StepDetails.drop_last_quote
            (String c (String d (s ++ String StepDetails.dquote ""))))
    with (String c (StepDetails.drop_last_quote
                      (String d (s ++ String StepDetails.dquote "")))).
  now rewrite IH.
Qed.

Lemma drop_last_quote_id (s : string) (c : ascii) :
  Ascii.eqb c StepDetails.dquote = false ->
  StepDetails.drop_last_quote (s ++ String c "") = s ++ String c "".
Proof.
  intros Hc. induction s as [|d s IH]; simpl; [now rewrite Hc|].
  destruct (s ++ String c "") eqn:E; [destruct s; discriminate E|].
  now rewrite IH.
Qed.

(** X14.  The value shown in the histogram is the raw JSON text of the
    property without its enclosing double quotes: a text enclosed in
    double quotes loses exactly these two characters, and a text that
    neither starts nor ends with a double quote (a number, [true]) is
    left as it is. *)
Theorem property_value_unquoted :
  (forall s, StepDetails.strip_quotes (json_string s) = s)
  /\ (forall c s d,
        Ascii.eqb c StepDetails.dquote = false ->
        Ascii.eqb d StepDetails.dquote = false ->
        StepDetails.strip_quotes (String c (s ++ String d "")) =
        String c (s ++ String d "")
        /\ StepDetails.strip_quotes (String c "") = String c "").
Proof.
  split.
  - intros s. unfold json_string, StepDetails.strip_quotes.
    rewrite Ascii.eqb_refl. apply drop_last_quote_app.
  - intros c s d Hc Hd. unfold StepDetails.strip_quotes. rewrite Hc. split.
    + change (String c (s ++ String d "")) with (String c s ++ String d "").
      now apply drop_last_quote_id.
    + simpl. now rewrite Hc.
Qed.

Lemma property_counts_total (pairs : list (string * string)) :
  sum_of StepDetails.pr_count (StepDetails.property_counts pairs) =
  Z.of_nat (List.length pairs).
Proof.
  unfold StepDetails.property_counts. rewrite sum_of_map.
  cbn [StepDetails.pr_count].
  apply (group_sizes_total (fun kv : string * string => kv)
           StepDetails.kv_eqb).
  - intros k r. rewrite kv_eqb_eq. split; congruence.
  - apply distinct_NoDup, kv_eqb_eq.
  - intros r Hr. now apply distinct_In; [apply kv_eqb_eq|].
Qed.

Lemma property_counts_keys (pairs : list (string * string)) :
  NoDup (map (fun r => (StepDetails.propertyKey r, StepDetails.propertyValue r))
           (StepDetails.property_counts pairs)).
Proof.
  unfold StepDetails.property_counts. rewrite map_map. simpl.
  rewrite (map_ext _ (fun kv => kv)) by (intros [k v]; reflexivity).
  rewrite map_id. apply distinct_NoDup, kv_eqb_eq.
Qed.

(** X15.  The histogram counts every key/value pair of the retained
    events at most once: its rows have distinct (key, value), and their
    counts add up to at most the number of pairs, and to exactly that
    number when the 500-row cap is not reached. *)
Theorem histogram_counts_total
    (env : Env) (siteId : Z) (label : string) (position : option (option Z))
    (table : list Event) :
  let retained :=
    StepDetails.target_step_events label position
      (StepDetails.numbered_events env siteId table) in
  let pairs := flat_map StepDetails.key_values retained in
  let rows := StepDetails.property_rows env siteId label position table in
  NoDup (map (fun r => (StepDetails.propertyKey r, StepDetails.propertyValue r))
           rows)
  /\ sum_of StepDetails.pr_count rows <= Z.of_nat (List.length pairs)
  /\ ((List.length rows < 500)%nat ->
      sum_of StepDetails.pr_count rows = Z.of_nat (List.length pairs)).
Proof.
  intros retained pairs rows.
  assert (Hrows : rows =
            firstn 500
              (Sql.order_by StepDetails.key_asc_count_desc
                 (StepDetails.property_counts pairs))).
  { unfold rows, StepDetails.property_rows, pairs, retained.
    rewrite key_values_with_props. reflexivity. }
  assert (Hall : sum_of StepDetails.pr_count
                   (Sql.order_by StepDetails.key_asc_count_desc
                      (StepDetails.property_counts pairs)) =
                 Z.of_nat (List.length pairs)).
  { rewrite <- (sum_of_perm _ _ _
                  (order_by_perm StepDetails.key_asc_count_desc _)).
    apply property_counts_total. }
  split; [|split].
  - rewrite Hrows, <- firstn_map. apply NoDup_firstn.
    eapply Permutation_NoDup;
      [apply Permutation_map, (order_by_perm StepDetails.key_asc_count_desc)|].
    apply property_counts_keys.
  - rewrite Hrows, <- Hall. apply sum_of_firstn.
    intros r Hr. apply order_by_In in Hr.
    unfold StepDetails.property_counts in Hr.
    apply in_map_iff in Hr as [kv [<- _]]. simpl. lia.
  - intros Hlen. rewrite Hrows in Hlen |- *.
    rewrite length_firstn in Hlen.
    rewrite firstn_all2 by lia. exact Hall.
Qed.

(** *** The client: what it sends and what the server reads *)

Ltac read_digit :=
  cbn [DecimalString.NilEmpty.string_of_uint Js.read_digits Pos.of_uint_acc
       Pos.of_uint];
  match goal with
  | |- context [Js.digit_of ?c] =>
      let v := eval vm_compute in (Js.digit_of c) in
      change (Js.digit_of c) with v
  end;
  cbv iota.

Lemma read_digits_acc (d : Decimal.uint) (p : positive) :
  Js.read_digits (DecimalString.NilEmpty.string_of_uint d) (Z.pos p) true =
  Some (Z.pos (Pos.of_uint_acc d p)).
Proof.
  revert p. induction d as [|d IH|d IH|d IH|d IH|d IH|d IH|d IH|d IH|d IH|d IH];
    intros p; [reflexivity|..]; read_digit;
    match goal with
    | |- Js.read_digits _ ?acc true = Some (Z.pos (Pos.of_uint_acc _ ?q)) =>
        replace acc with (Z.pos q) by lia; apply IH
    end.
Qed.

Lemma read_digits_zero (d : Decimal.uint) :
  Js.read_digits (DecimalString.NilEmpty.string_of_uint d) 0 true =
  Some (Z.of_N (Pos.of_uint d)).
Proof.
  induction d as [|d IH|d IH|d IH|d IH|d IH|d IH|d IH|d IH|d IH|d IH];
    [reflexivity | read_digit; exact IH | ..]; read_digit;
    cbn [Z.of_N];
    match goal with
    | |- Js.read_digits _ ?acc true = Some (Z.pos (Pos.of_uint_acc _ ?q)) =>
        change acc with (Z.pos q); apply read_digits_acc
    end.
Qed.

Lemma parseInt_digits (d : Decimal.uint) :
  d <> Decimal.Nil ->
  Js.parseInt (DecimalString.NilEmpty.string_of_uint d) =
  Some (Z.of_N (Pos.of_uint d))
  /\ Js.read_digits (DecimalString.NilEmpty.string_of_uint d) 0 false =
     Some (Z.of_N (Pos.of_uint d)).
Proof.
  intros Hd. rewrite <- read_digits_zero.
  destruct d; [congruence | split; reflexivity ..].
Qed.

Lemma string_of_uint_nonnil (d : Decimal.uint) :
  d <> Decimal.Nil ->
  DecimalString.NilZero.string_of_uint d =
  DecimalString.NilEmpty.string_of_uint d.
Proof. destruct d; [congruence | reflexivity ..]. Qed.

(** A number written by the client is read back by [parseInt]. *)
Lemma parseInt_toString (n : Z) : Js.parseInt (Client.toString n) = Some n.
Proof.
  unfold Client.toString. destruct n as [|p|p]; [reflexivity| |];
    cbn [Z.to_int DecimalString.NilZero.string_of_int];
    pose proof (DecimalPos.Unsigned.to_uint_nonnil p) as Hn;
    rewrite (string_of_uint_nonnil _ Hn).
  - rewrite (proj1 (parseInt_digits _ Hn)), DecimalPos.Unsigned.of_to.
    reflexivity.
  - change (Js.parseInt
              (String "-"
                 (DecimalString.NilEmpty.string_of_uint (Pos.to_uint p))))
      with (option_map Z.opp
              (Js.read_digits
                 (DecimalString.NilEmpty.string_of_uint (Pos.to_uint p))
                 0 false)).
    rewrite (proj2 (parseInt_digits _ Hn)), DecimalPos.Unsigned.of_to.
    reflexivity.
Qed.

Lemma toString_truthy (n : Z) : Js.truthy (Client.toString n) = true.
Proof.
  pose proof (parseInt_toString n) as H.
  destruct (Client.toString n); [discriminate H | reflexivity].
Qed.

(** X16.  What [fetchJourneyTransitionSessions] sends is what the
    handler reads back.  A position constraint that is a safe integer,
    the position 0 included, arrives as that number (the client tests it
    against [undefined], and the server tests the text, which is not
    empty); an absent one stays absent.  [limit] and [page] that are safe
    integers are parsed to themselves, the server's defaults 50 and 1
    standing in for absent ones; [includeEvents] is read as sent, and as
    [true] when absent. *)
Theorem client_numbers_round_trip (p : Client.TransitionSessionsParams) :
  let q := Client.fetchJourneyTransitionSessions p in
  (forall n, Client.sourceStep p = Some n -> Client.isSafeInteger n = true ->
     supplied_step (Transitions.sourceStep q) = Some n
     /\ numeric_step (Transitions.sourceStep q) = true)
  /\ (Client.sourceStep p = None ->
      supplied_step (Transitions.sourceStep q) = None
      /\ numeric_step (Transitions.sourceStep q) = true)
  /\ (forall n, Client.targetStep p = Some n -> Client.isSafeInteger n = true ->
        supplied_step (Transitions.targetStep q) = Some n
        /\ numeric_step (Transitions.targetStep q) = true)
  /\ (Client.targetStep p = None ->
      supplied_step (Transitions.targetStep q) = None
      /\ numeric_step (Transitions.targetStep q) = true)
  /\ (forall n, Client.limit p = Some n -> Client.isSafeInteger n = true ->
        Js.parseInt (Js.with_default "50" (Transitions.limit q)) = Some n)
  /\ (Client.limit p = None ->
      Js.parseInt (Js.with_default "50" (Transitions.limit q)) = Some 50)
  /\ (forall n, Client.page p = Some n -> Client.isSafeInteger n = true ->
        Js.parseInt (Js.with_default "1" (Transitions.page q)) = Some n)
  /\ (Client.page p = None ->
      Js.parseInt (Js.with_default "1" (Transitions.page q)) = Some 1)
  /\ parse_includeEvents
       (Js.with_default "true" (Transitions.includeEvents q)) =
     Client.or_default true (Client.includeEvents p).
Proof.
  intros q. subst q. destruct p as [src tgt ss ts inc excl lim pg].
  cbn [Client.fetchJourneyTransitionSessions Client.sourceStep
       Client.targetStep Client.limit Client.page Client.includeEvents
       Client.source Client.target Client.excludeEventNames
       Transitions.sourceStep Transitions.targetStep Transitions.limit
       Transitions.page Transitions.includeEvents].
  assert (Hstep : forall n,
             supplied_step (option_map Client.toString (Some n)) = Some n
             /\ numeric_step (option_map Client.toString (Some n)) = true).
  { intros n. unfold supplied_step, numeric_step. simpl.
    now rewrite toString_truthy, parseInt_toString. }
  split; [intros n -> _; apply Hstep|].
  split; [intros ->; split; reflexivity|].
  split; [intros n -> _; apply Hstep|].
  split; [intros ->; split; reflexivity|].
  split; [intros n -> _; apply parseInt_toString|].
  split; [intros ->; reflexivity|].
  split; [intros n -> _; apply parseInt_toString|].
  split; [intros ->; reflexivity|].
  destruct inc as [[|]|]; reflexivity.
Qed.


(** *** The events page *)

Lemma has_filter (keep : string -> bool) (set : list string) (x : string) :
  Client.has (filter keep set) x = (Client.has set x && keep x)%bool.
Proof.
  unfold Client.has. induction set as [|a set IH]; [reflexivity|].
  simpl. destruct (keep a) eqn:Ka; simpl; rewrite IH.
  - destruct (String.eqb_spec x a) as [->|_]; [now rewrite Ka|reflexivity].
  - destruct (String.eqb_spec x a) as [->|_]; [|reflexivity].
    rewrite Ka. now rewrite andb_false_r.
Qed.

Lemma has_In (set : list string) (x : string) :
  Client.has set x = true <-> In x set.
Proof.
  unfold Client.has. rewrite existsb_exists. split.
  - intros [y [Hy Heq]]. apply String.eqb_eq in Heq. now subst.
  - intros H. exists x. split; [exact H | apply String.eqb_refl].
Qed.

Lemma has_toggleEventType (type : string) (prev : list string) (x : string) :
  Client.has (Client.toggleEventType type prev) x =
  if String.eqb x type then negb (Client.has prev type) else Client.has prev x.
Proof.
  unfold Client.toggleEventType. destruct (Client.has prev type) eqn:Hin.
  - rewrite has_filter. destruct (String.eqb_spec x type) as [->|_].
    + now rewrite andb_false_r.
    + now rewrite andb_true_r.
  - unfold Client.has. rewrite existsb_app. simpl. rewrite orb_false_r.
    destruct (String.eqb_spec x type) as [->|_].
    + apply orb_true_r.
    + apply orb_false_r.
Qed.

Lemma NoDup_toggleEventType (type : string) (prev : list string) :
  NoDup prev -> NoDup (Client.toggleEventType type prev).
Proof.
  intros Hnd. unfold Client.toggleEventType.
  destruct (Client.has prev type) eqn:Hin.
  - now apply NoDup_filter.
  - apply NoDup_app; [exact Hnd | repeat constructor; intros [] |].
    intros a Ha [<-|[]]. apply has_In in Ha. congruence.
Qed.

(** X18.  Toggling an event type on the events page flips the
    visibility of that type and of no other, keeps the set free of
    repeats, and toggling the same type twice restores the visibility of
    every type. *)
Theorem toggle_flips_one_type (type : string) (prev : list string) :
  (forall x,
      Client.has (Client.toggleEventType type prev) x =
      if String.eqb x type then negb (Client.has prev type)
      else Client.has prev x)
  /\ (NoDup prev -> NoDup (Client.toggleEventType type prev))
  /\ (forall x,
        Client.has
          (Client.toggleEventType type (Client.toggleEventType type prev)) x =
        Client.has prev x).
Proof.
  split; [apply has_toggleEventType|].
  split; [apply NoDup_toggleEventType|].
  intros x. rewrite !has_toggleEventType, String.eqb_refl.
  destruct (String.eqb_spec x type) as [->|_]; [apply negb_involutive|].
  reflexivity.
Qed.

Lemma has_toggle_each (types set : list string) (x : string) :
  NoDup types ->
  Client.has (fold_right Client.toggleEventType set types) x =
  xorb (Client.has set x) (Client.has types x).
Proof.
  intros Hnd. induction Hnd as [|t types Hnot Hnd IH].
  - simpl. now rewrite xorb_false_r.
  - simpl fold_right. rewrite has_toggleEventType.
    change (Client.has (t :: types) x)
      with (String.eqb x t || Client.has types x)%bool.
    destruct (String.eqb_spec x t) as [->|_].
    + rewrite IH. simpl.
      assert (Client.has types t = false) as ->.
      { destruct (Client.has types t) eqn:E; [|reflexivity].
        apply has_In in E. contradiction. }
      rewrite xorb_false_r. now destruct (Client.has set t).
    + exact IH.
Qed.

Lemma has_nothing (set : list string) :
  (forall x, Client.has set x = false) -> set = [].
Proof.
  destruct set as [|a set]; [reflexivity|]. intros H. specialize (H a).
  unfold Client.has in H. simpl in H. now rewrite String.eqb_refl in H.
Qed.

(** X19.  The event log lists the loaded events whose type is visible,
    in their order, as long as some type is visible; once every type has
    been toggled off it lists every loaded event again instead of
    none. *)
Theorem event_log_filter {E : Type} (type_of : E -> string)
    (events : list E) :
  (forall set : list string,
      set <> [] ->
      Client.allEvents type_of (Some set) events =
      filter (fun event => Client.has set (type_of event)) events)
  /\ (forall set : list string,
        NoDup set ->
        Client.allEvents type_of
          (Some (fold_right Client.toggleEventType set set)) events = events).
Proof.
  split.
  - intros [|t set] Hne; [congruence | reflexivity].
  - intros set Hnd.
    assert (fold_right Client.toggleEventType set set = []) as ->.
    { apply has_nothing. intros x. rewrite has_toggle_each by exact Hnd.
      apply xorb_nilpotent. }
    reflexivity.
Qed.

(** *** The further properties at sample inputs *)

Lemma journeys_ranked_witness :
  Journeys.getJourneys Sample.env 1 Sample.journeys_query Sample.two_sessions =
    Sent [Journeys.mkJourney ["/a"; "/b"] 1 (100 # 2)]
  /\ StronglySorted larger_first [Journeys.mkJourney ["/a"; "/b"] 1 (100 # 2)]
  /\ Z.of_nat (List.length [Journeys.mkJourney ["/a"; "/b"] 1 (100 # 2)]) <= 100
  /\ NoDup (map Journeys.path [Journeys.mkJourney ["/a"; "/b"] 1 (100 # 2)])
  /\ forall j, In j [Journeys.mkJourney ["/a"; "/b"] 1 (100 # 2)] ->
               1 <= Journeys.count j.
Proof.
  split; [reflexivity|].
  exact (journeys_ranked Sample.env 1 Sample.journeys_query Sample.two_sessions
           [Journeys.mkJourney ["/a"; "/b"] 1 (100 # 2)] 100 eq_refl eq_refl).
Defined.

Lemma journey_counts_total_witness :
  Journeys.getJourneys Sample.env 1 Sample.journeys_query Sample.two_sessions =
    Sent [Journeys.mkJourney ["/a"; "/b"] 1 (100 # 2)]
  /\ List.length (Journeys.user_paths Sample.env 1 true [] Sample.two_sessions)
     = 1%nat
  /\ List.length (base_sessions Sample.env 1 Sample.two_sessions) = 2%nat
  /\ sum_of Journeys.count [Journeys.mkJourney ["/a"; "/b"] 1 (100 # 2)] =
     Z.of_nat
       (List.length
          (Journeys.user_paths Sample.env 1 true [] Sample.two_sessions)).
Proof.
  split; [reflexivity|]. split; [reflexivity|]. split; [reflexivity|].
  assert (Hfew : Z.of_nat
                   (List.length [Journeys.mkJourney ["/a"; "/b"] 1 (100 # 2)])
                 < 100) by (simpl; lia).
  exact (proj2 (proj2 (journey_counts_total Sample.env 1 Sample.journeys_query
                         Sample.two_sessions
                         [Journeys.mkJourney ["/a"; "/b"] 1 (100 # 2)] 100
                         eq_refl eq_refl)) eq_refl Hfew).
Defined.

Lemma step_filter_applied_witness :
  Journeys.getJourneys Sample.env 1
    (Journeys.mkQuery None None (Journeys.ParsedStepFilters [("0", "/a")]) None [])
    Sample.two_sessions = Sent [Journeys.mkJourney ["/a"; "/b"] 1 (100 # 2)]
  /\ Sql.arrayElement "" ["/a"; "/b"] (0 + 1) = "/a".
Proof.
  split; [reflexivity|].
  assert (H0 : 0 <= 0) by lia.
  exact (proj1
           (proj1
              (step_filter_applied Sample.env 1
                 (Journeys.mkQuery None None
                    (Journeys.ParsedStepFilters [("0", "/a")]) None [])
                 Sample.two_sessions
                 [Journeys.mkJourney ["/a"; "/b"] 1 (100 # 2)]
                 [("0", "/a")] "0" "/a" 0 eq_refl eq_refl (or_introl eq_refl)
                 eq_refl H0 (Journeys.mkJourney ["/a"; "/b"] 1 (100 # 2))
                 (or_introl eq_refl))
              eq_refl)).
Defined.

Lemma journey_steps_origin_witness :
  exists e,
    In e Sample.two_sessions
    /\ base_predicate Sample.env 1 e = true
    /\ "/b" = Journeys.step_label e.
Proof.
  destruct (journey_steps_origin Sample.env 1 Sample.journeys_query
              Sample.two_sessions
              [Journeys.mkJourney ["/a"; "/b"] 1 (100 # 2)] eq_refl
              (Journeys.mkJourney ["/a"; "/b"] 1 (100 # 2)) "/b"
              (or_introl eq_refl) (or_intror (or_introl eq_refl)))
    as [e [Hin [Hbase [Hlabel _]]]].
  exists e. split; [exact Hin|]. split; [exact Hbase | exact Hlabel].
Defined.

Lemma exclude_names_forms_agree_witness :
  ExcludeNames.excludedEventNames (ExcludeNames.OtherText " signup,buy ,") =
  ExcludeNames.excludedEventNames
    (ExcludeNames.JsonArray [" signup"; "buy "; ""]).
Proof. exact (exclude_names_forms_agree [" signup"; "buy "; ""] eq_refl). Defined.

Lemma impossible_transition_empty_witness :
  Transitions.getJourneyTransitionSessions Sample.env 1
    (Sample.transition_query "/a" "/a" None None) Sample.reload_session =
  Sent (Transitions.mkBody [] (Transitions.mkPagination 0 (Some 1) 50 0)).
Proof.
  assert (Hl : 1 <= 50 <= 200) by lia.
  assert (Hp : 1 <= 1) by lia.
  assert (Hfit : (1 - 1) * 50 <= 2147483647) by lia.
  exact (impossible_transition_empty Sample.env 1
           (Sample.transition_query "/a" "/a" None None) Sample.reload_session
           "/a" "/a" 50 1 eq_refl eq_refl eq_refl eq_refl eq_refl Hl eq_refl Hp
           Hfit (or_introl eq_refl)).
Defined.

Lemma transition_pages_tile_witness :
  Js.ceil_div
    (Transitions.count_query Sample.env 1 "/a" "/b" None None true []
       (Sample.many_sessions 5)) 2 = 3
  /\ pages_upto
       (fun p =>
          match Transitions.page_query Sample.env 1 "/a" "/b" None None true []
                  2 (Transitions.js_offset (Some p) (Some 2))
                  (Sample.many_sessions 5) with
          | Some rows => rows
          | None => []
          end)
       (Z.to_nat
          (Js.ceil_div
             (Transitions.count_query Sample.env 1 "/a" "/b" None None true []
                (Sample.many_sessions 5)) 2)) =
     Transitions.ranked_sessions Sample.env 1 "/a" "/b" None None true []
       (Sample.many_sessions 5).
Proof.
  split; [reflexivity|].
  assert (Hl : 1 <= 2) by lia.
  exact (transition_pages_tile Sample.env 1 "/a" "/b" None None true []
           (Sample.many_sessions 5) 2 Hl).
Defined.

Lemma transition_timestamp_bounds_witness :
  exists body,
    Transitions.getJourneyTransitionSessions Sample.env 1
      (Sample.transition_query "/b" "/c" None None) Sample.reload_session =
    Sent body
    /\ forall s, In s (map Transitions.session (Transitions.data body)) ->
         Transitions.session_start s <= Transitions.s_transition_timestamp s
           <= Transitions.session_end s
         /\ exists t,
              first_occurrence_timestamp Transitions.stepLabelCase "/b"
                (session_events Sample.env 1 true [] Sample.reload_session
                   (Transitions.s_session_id s)) = Some t
              /\ Transitions.s_transition_timestamp s <= t.
Proof.
  eexists. split; [reflexivity|].
  exact (transition_timestamp_bounds Sample.env 1
           (Sample.transition_query "/b" "/c" None None) Sample.reload_session
           _ "/b" eq_refl eq_refl).
Defined.

Lemma transition_row_positions_witness :
  exists body,
    Transitions.getJourneyTransitionSessions Sample.env 1
      (Sample.transition_query "/b" "/c" None None) Sample.reload_session =
    Sent body
    /\ NoDup (map Transitions.s_session_id
                (map Transitions.session (Transitions.data body)))
    /\ map (fun s => (Transitions.s_source_index s, Transitions.s_target_index s))
         (map Transitions.session (Transitions.data body)) = [(2, 3)].
Proof.
  eexists. split; [reflexivity|].
  split; [|reflexivity].
  exact (proj1 (transition_row_positions Sample.env 1
                  (Sample.transition_query "/b" "/c" None None)
                  Sample.reload_session _ "/b" "/c" eq_refl eq_refl eq_refl)).
Defined.

